(** * rofi-zotero: the item and attachment resolution of [rofi-zotero.py]

    A shallow embedding of the script: the label formatters
    ([format_authors], [format_item], [format_path]), the four reconciliation
    loops of [main] (authors, titles, dates, paths), the catalog sort, and
    the two picker stages with the final existence check.

    Python values are modelled as follows.
    - [str] is a list of Unicode code points ([N]); [len] is [length] and
      comparison is code-point lexicographic.
    - [dict]s that are only read by key ([authors], [keys], [years],
      [paths]) are [gmap Z _]; [titles], which is iterated, is an
      association list in insertion order.
    - an exception is a value of [exn] in the [result] monad.
    - [pathlib.Path] is CPython's pure POSIX path (versions 3.7 to 3.11):
      a root and the list of parts.
    - a [float] is an IEEE 754 binary64 number ([spec_float]).
    - the outside world (sqlite rows, what rofi prints, which files exist)
      is an explicit argument; what the script does to it is a list of
      [event]s. *)

From Stdlib Require Import ZArith NArith Ascii String SpecFloat.
From Stdlib Require Import Sorted Permutation Lia.
From stdpp Require Import base option list gmap.

Local Open Scope Z_scope.

(** * The program *)

(** ** Exceptions *)

Inductive exn : Type :=
  | IndexError
  | KeyError
  | ValueError
  | OverflowError.

Inductive result (A : Type) : Type :=
  | Ok (a : A)
  | Raise (e : exn).
Arguments Ok {A} a.
Arguments Raise {A} e.

#[global] Instance result_ret : MRet result := fun A a => Ok a.
#[global] Instance result_bind : MBind result := fun A B f m =>
  match m with
  | Ok a => f a
  | Raise e => Raise e
  end.

(** A [for] loop whose body may raise. *)
Fixpoint foldM {A S : Type} (body : S -> A -> result S) (s : S) (l : list A)
  : result S :=
  match l with
  | [] => Ok s
  | x :: l' => s' ← body s x; foldM body s' l'
  end.

(** ** Python strings *)

Abbreviation str := (list N).

(** A literal of the source, as code points (ASCII only). *)
Definition lit (s : string) : str := N_of_ascii <$> list_ascii_of_string s.

(** U+2026 HORIZONTAL ELLIPSIS, the one character of the literal on
    line 187. *)
Definition ellipsis : N := 8230%N.

(** The string of the one character U+000A, written with an escape in the
    source. *)
Definition newline : str := [10%N].

Definition len {A : Type} (l : list A) : Z := Z.of_nat (length l).

Definition str_eqb (a b : str) : bool := bool_decide (a = b).

(** Python's [<] on sequences: the first position where the two differ
    decides; a proper prefix is smaller. *)
Fixpoint seq_ltb {A : Type} (eqb ltb : A -> A -> bool) (a b : list A) : bool :=
  match a, b with
  | [], [] => false
  | [], _ :: _ => true
  | _ :: _, [] => false
  | x :: a', y :: b' => if eqb x y then seq_ltb eqb ltb a' b' else ltb x y
  end.

Definition str_ltb : str -> str -> bool := seq_ltb N.eqb N.ltb.

(** [s.startswith(p)] *)
Fixpoint startswith (s p : str) {struct p} : bool :=
  match p, s with
  | [], _ => true
  | _ :: _, [] => false
  | c :: p', d :: s' => N.eqb c d && startswith s' p'
  end.

(** [s.replace(old, new, 1)] for a non-empty [old]: the leftmost occurrence
    is replaced. *)
Fixpoint replace_first (s old new : str) : str :=
  if startswith s old then new ++ drop (length old) s
  else match s with
       | [] => []
       | c :: s' => c :: replace_first s' old new
       end.

(** [sub in s] *)
Fixpoint contains (s sub : str) : bool :=
  startswith s sub ||
  match s with
  | [] => false
  | _ :: s' => contains s' sub
  end.

(** [s.split(sep)] for a one-character separator: always at least one
    field. *)
Fixpoint split (sep : N) (s : str) : list str :=
  match s with
  | [] => [[]]
  | c :: s' =>
      if N.eqb c sep then [] :: split sep s'
      else match split sep s' with
           | [] => [[c]]
           | f :: fs => (c :: f) :: fs
           end
  end.

(** [sep.join(l)] *)
Fixpoint join (sep : str) (l : list str) : str :=
  match l with
  | [] => []
  | [x] => x
  | x :: l' => x ++ sep ++ join sep l'
  end.

(** [s.lstrip(c)] *)
Fixpoint lstrip (c : N) (s : str) : str :=
  match s with
  | d :: s' => if N.eqb d c then lstrip c s' else s
  | [] => []
  end.

(** Slices [s[:k]] and [s[k:]]: a negative bound counts from the end and
    both are clamped to the sequence. *)
Definition clamp_index {A : Type} (s : list A) (k : Z) : nat :=
  if k <? 0 then Z.to_nat (Z.max 0 (len s + k)) else Z.to_nat k.

Definition slice_to {A : Type} (s : list A) (k : Z) : list A :=
  take (clamp_index s k) s.

Definition slice_from {A : Type} (s : list A) (k : Z) : list A :=
  drop (clamp_index s k) s.

(** [l[i]]: a negative index counts from the end. *)
Definition getitem {A : Type} (l : list A) (i : Z) : result A :=
  let j := if i <? 0 then len l + i else i in
  if j <? 0 then Raise IndexError
  else match l !! Z.to_nat j with
       | Some x => Ok x
       | None => Raise IndexError
       end.

(** [d[k]] on a dict. *)
Definition dict_getitem {V : Type} (d : gmap Z V) (k : Z) : result V :=
  match d !! k with
  | Some v => Ok v
  | None => Raise KeyError
  end.

(** [list.sort()]: stable, and uses [<] only. *)
Fixpoint insert_sorted {A : Type} (ltb : A -> A -> bool) (x : A) (l : list A)
  : list A :=
  match l with
  | [] => [x]
  | y :: l' => if ltb y x then y :: insert_sorted ltb x l' else x :: y :: l'
  end.

Definition sort {A : Type} (ltb : A -> A -> bool) (l : list A) : list A :=
  foldr (insert_sorted ltb) [] l.

(** ** Floats *)

Abbreviation float := spec_float.

(** [float(n)]: correctly rounded, [OverflowError] beyond the range. *)
Definition float_of_int (n : Z) : result float :=
  match binary_normalize 53 1024 n 0 false with
  | S754_infinity _ => Raise OverflowError
  | f => Ok f
  end.

(** [n * x] for an [int] and a [float]. *)
Definition int_mul_float (n : Z) (x : float) : result float :=
  f ← float_of_int n; Ok (SFmul 53 1024 f x).

(** [round(x)] without [ndigits]: to the nearest integer, ties to even. *)
Definition round_half_even (m : positive) (e : Z) : Z :=
  match e with
  | Zneg k =>
      let d := Z.pow_pos 2 k in
      let q := Z.pos m / d in
      let r := Z.pos m mod d in
      match (2 * r ?= d) with
      | Lt => q
      | Gt => q + 1
      | Eq => if Z.even q then q else q + 1
      end
  | _ => Z.pos m * 2 ^ e
  end.

Definition round (x : float) : result Z :=
  match x with
  | S754_zero _ => Ok 0
  | S754_infinity _ => Raise OverflowError
  | S754_nan => Raise ValueError
  | S754_finite s m e => Ok (cond_Zopp s (round_half_even m e))
  end.

(** The literal [0.5]. *)
Definition float_half : float := S754_finite false 4503599627370496 (-53).

(** Python's [repr] of a [str]: exact on ASCII; code points from 128 on are
    copied (as [repr] does for the printable ones). *)
Definition hex_digit (n : N) : N :=
  (if n <? 10 then 48 + n else 87 + n)%N.

Definition backslash : N := 92%N.

Definition repr_char (quote c : N) : str :=
  if (N.eqb c quote || N.eqb c backslash)%bool then [backslash; c]
  else if N.eqb c 9 then [backslash; 116%N]
  else if N.eqb c 10 then [backslash; 110%N]
  else if N.eqb c 13 then [backslash; 114%N]
  else if (N.ltb c 32 || N.eqb c 127)%bool
       then [backslash; 120%N; hex_digit (c / 16); hex_digit (c mod 16)]
  else [c].

Definition repr_str (s : str) : str :=
  let quote :=
    if (bool_decide (39%N ∈ s) && negb (bool_decide (34%N ∈ s)))%bool
    then 34%N else 39%N in
  [quote] ++ mjoin (repr_char quote <$> s) ++ [quote].

(** ** pathlib: pure POSIX paths *)

Module pathlib.

Definition sep : N := 47%N.

(** [_root] and [_parts]; the root, when there is one, is also the first
    part. *)
Record Path : Type := mkPath { root : str; parts : list str }.

#[global] Instance Path_eq_dec : EqDecision Path.
Proof. solve_decision. Defined.

(** [_PosixFlavour.splitroot]: the root and the rest. *)
Definition splitroot (part : str) : str * str :=
  match part with
  | c :: _ =>
      if N.eqb c sep then
        let stripped_part := lstrip sep part in
        if len part - len stripped_part =? 2
        then ([sep; sep], stripped_part)
        else ([sep], stripped_part)
      else ([], part)
  | [] => ([], part)
  end.

Definition keep (x : str) : bool :=
  negb (str_eqb x []) && negb (str_eqb x (lit ".")).

(** The components one argument contributes. *)
Definition components (rel : str) : list str :=
  if bool_decide (sep ∈ rel) then filter (fun x => keep x = true) (split sep rel)
  else if keep rel then [rel] else [].

(** [_Flavour.parse_parts]: the arguments are read from the last to the
    first, up to and including the first one with a root. *)
Fixpoint parse_rev (args_rev : list str) : Path :=
  match args_rev with
  | [] => mkPath [] []
  | part :: rest =>
      if str_eqb part [] then parse_rev rest
      else
        let '(rt, rel) := splitroot part in
        if str_eqb rt [] then
          let p := parse_rev rest in
          mkPath (root p) (parts p ++ components rel)
        else mkPath rt (rt :: components rel)
  end.

Definition parse_parts (args : list str) : Path := parse_rev (reverse args).

(** [Path(s)] *)
Definition of_str (s : str) : Path := parse_parts [s].

(** [_Flavour.join_parsed_parts] without drives. *)
Definition join_parsed_parts (p q : Path) : Path :=
  if str_eqb (root q) [] then mkPath (root p) (parts p ++ parts q)
  else q.

(** [p / s] *)
Definition truediv (p : Path) (s : str) : Path :=
  join_parsed_parts p (parse_parts [s]).

(** [str(p)] *)
Definition to_str (p : Path) : str :=
  let s := if str_eqb (root p) [] then join [sep] (parts p)
           else root p ++ join [sep] (tail (parts p)) in
  if str_eqb s [] then lit "." else s.

(** [repr(p)] *)
Definition repr (p : Path) : str :=
  lit "PosixPath(" ++ repr_str (to_str p) ++ lit ")".

(** [p.name] *)
Definition name (p : Path) : str :=
  if (length (parts p) =? (if str_eqb (root p) [] then 0 else 1))%nat
  then []
  else default [] (last (parts p)).

(** [p < q], on [_cparts]. *)
Definition ltb (p q : Path) : bool :=
  seq_ltb str_eqb str_ltb (parts p) (parts q).

End pathlib.

Import pathlib (Path).
Infix "//" := pathlib.truediv (at level 40, left associativity).

(** [str(l)] for a list of paths. *)
Definition str_of_paths (l : list Path) : str :=
  lit "[" ++ join (lit ", ") (pathlib.repr <$> l) ++ lit "]".

(** ** The formats *)

Definition FORMAT_ITEM (author year title : str) : str :=
  author ++ lit " (" ++ year ++ lit ") - " ++ title.
Definition FORMAT_ITEM_WITHOUT_YEAR (author title : str) : str :=
  author ++ lit " - " ++ title.
Definition FORMAT_ITEM_WITHOUT_AUTHOR (year title : str) : str :=
  lit "Unknown (" ++ year ++ lit ") - " ++ title.
Definition FORMAT_ITEM_WITHOUT_AUTHOR_AND_YEAR (title : str) : str :=
  lit "Unknown - " ++ title.

Definition FORMAT_AUTHORS_SINGLE (author1 : str) : str := author1.
Definition FORMAT_AUTHORS_TWO (author1 author2 : str) : str :=
  author1 ++ lit " and " ++ author2.
Definition FORMAT_AUTHORS_MULTIPLE (author1 : str) : str :=
  author1 ++ lit " et al.".

Definition FORMAT_PATH_MAXLEN : Z := 80.
Definition FORMAT_PATH_FULLPATH : bool := false.
Definition FORMAT_PATH_ENDING_FRACTION : float := float_half.

Definition _ZOTERO_STORAGE_DIR : str := lit "storage".

(** ** The formatters *)

Definition format_authors (author_list : list str) : result str :=
  if (length author_list =? 1)%nat then
    a1 ← getitem author_list 0; Ok (FORMAT_AUTHORS_SINGLE a1)
  else if (length author_list =? 2)%nat then
    a1 ← getitem author_list 0;
    a2 ← getitem author_list 1;
    Ok (FORMAT_AUTHORS_TWO a1 a2)
  else
    a1 ← getitem author_list 0; Ok (FORMAT_AUTHORS_MULTIPLE a1).

Definition format_path (path : Path) (maxlen : Z) (fullpath : bool)
    (ending_fraction : float) : result str :=
  let path_str := if negb fullpath then pathlib.name path
                  else pathlib.to_str path in
  if len path_str <=? maxlen then Ok path_str
  else
    x ← int_mul_float maxlen ending_fraction;
    r ← round x;
    let char_end := r - 1 in
    let char_start := maxlen - char_end - 1 in
    Ok (slice_to path_str char_start ++ [ellipsis]
          ++ slice_from path_str (- char_end)).

(** Truthiness of an optional string: [None] and [""] are false. *)
Definition truthy (o : option str) : bool :=
  match o with
  | Some (_ :: _) => true
  | _ => false
  end.

Definition format_item (title : str) (author year : option str) : str :=
  if truthy author && truthy year then
    FORMAT_ITEM (default [] author) (default [] year) title
  else if truthy author then
    FORMAT_ITEM_WITHOUT_YEAR (default [] author) title
  else if truthy year then
    FORMAT_ITEM_WITHOUT_AUTHOR (default [] year) title
  else
    FORMAT_ITEM_WITHOUT_AUTHOR_AND_YEAR title.

(** ** The reconciliation loops of [main] *)

(** The rows of the four queries. A path may be NULL. *)
Definition AuthorRow : Type := Z * str.
Definition TitleRow : Type := Z * str * str.
Definition DateRow : Type := Z * str.
Definition PathRow : Type := Z * option str.

(** *** Authors (lines 363 to 372) *)

(** The loop variables [id], [author_list] and [authors]. *)
Record author_state : Type := mkAuthorState {
  as_id : Z;
  as_author_list : list str;
  as_authors : gmap Z str
}.

Definition authors_body (st : author_state) (row : AuthorRow)
  : result author_state :=
  let '(author_id, author) := row in
  st' ← (if negb (author_id =? as_id st) then
            s ← format_authors (as_author_list st);
            Ok (mkAuthorState author_id [] (<[as_id st := s]> (as_authors st)))
          else Ok st);
  Ok (mkAuthorState (as_id st') (as_author_list st' ++ [author])
        (as_authors st')).

Definition authors_loop (all_authors : list AuthorRow) : result author_state :=
  row0 ← getitem all_authors 0;
  foldM authors_body (mkAuthorState row0.1 [] ∅) all_authors.

Definition reconcile_authors (all_authors : list AuthorRow)
  : result (gmap Z str) :=
  st ← authors_loop all_authors; Ok (as_authors st).

(** *** Titles and keys (lines 374 to 379) *)

(** An identifier that is not in [titles] yet goes to the end of its
    insertion order. *)
Definition titles_body (st : list (Z * str) * gmap Z str) (row : TitleRow)
  : list (Z * str) * gmap Z str :=
  let '(titles, keys) := st in
  let '(title_id, title, key) := row in
  if negb (bool_decide (title_id ∈ titles.*1))
  then (titles ++ [(title_id, title)], <[title_id := key]> keys)
  else (titles, keys).

Definition reconcile_titles (all_titles : list TitleRow)
  : list (Z * str) * gmap Z str :=
  foldl titles_body ([], ∅) all_titles.

(** *** Years (lines 381 to 384) *)

(** [date.split("-")[0]] *)
Definition year_of (date : str) : str :=
  default [] (head (split 45 date)).

Definition years_body (years : gmap Z str) (row : DateRow) : gmap Z str :=
  let '(date_id, date) := row in
  if negb (bool_decide (is_Some (years !! date_id)))
  then <[date_id := year_of date]> years
  else years.

Definition reconcile_years (all_dates : list DateRow) : gmap Z str :=
  foldl years_body ∅ all_dates.

(** *** Paths (lines 386 to 405) *)

(** Lines 394 to 401: the raw expression to a path. Only the [storage:]
    branch reads [keys]. *)
Definition resolve_path (zotero_base_dir zotero_path : Path)
    (keys : gmap Z str) (path_id : Z) (path : str) : result Path :=
  if startswith path (lit "attachments:") then
    let path := replace_first path (lit "attachments:") [] in
    Ok (zotero_base_dir // path)
  else if startswith path (lit "storage:") then
    let path := replace_first path (lit "storage:") [] in
    key ← dict_getitem keys path_id;
    Ok (zotero_path // _ZOTERO_STORAGE_DIR // key // path)
  else
    Ok (pathlib.of_str path).

(** Line 391: the test that skips a row. *)
Definition already_recorded (paths : gmap Z (list Path)) (path_id : Z)
    (path : str) : bool :=
  match paths !! path_id with
  | Some l => str_eqb (str_of_paths l) path
  | None => false
  end.

Definition paths_body (zotero_base_dir zotero_path : Path)
    (keys : gmap Z str) (paths : gmap Z (list Path)) (row : PathRow)
  : result (gmap Z (list Path)) :=
  let '(path_id, path) := row in
  match path with
  | None => Ok paths
  | Some path =>
      if already_recorded paths path_id path then Ok paths
      else
        p ← resolve_path zotero_base_dir zotero_path keys path_id path;
        let paths :=
          if negb (bool_decide (is_Some (paths !! path_id)))
          then <[path_id := []]> paths else paths in
        Ok (<[path_id := default [] (paths !! path_id) ++ [p]]> paths)
  end.

Definition reconcile_paths (zotero_base_dir zotero_path : Path)
    (keys : gmap Z str) (all_paths : list PathRow)
  : result (gmap Z (list Path)) :=
  foldM (paths_body zotero_base_dir zotero_path keys) ∅ all_paths.

(** *** The catalog (lines 407 to 415) *)

Definition build_items (titles : list (Z * str)) (authors years : gmap Z str)
  : list (str * Z) :=
  (fun '(item_id, title) =>
     (format_item title (authors !! item_id) (years !! item_id), item_id))
  <$> titles.

(** [<] on the tuples [(item_string, item_id)]. *)
Definition item_ltb (a b : str * Z) : bool :=
  if str_eqb a.1 b.1 then a.2 <? b.2 else str_ltb a.1 b.1.

Definition sort_items (l : list (str * Z)) : list (str * Z) :=
  sort item_ltb l.

(** ** The outside world *)

(** What [rofi -dmenu -format i] printed, as [strip] and [int] read it:
    nothing, an integer, or something [int] rejects. *)
Inductive reply : Type :=
  | NoSelection
  | Selected (i : Z)
  | NotAnInteger.

Record world : Type := mkWorld {
  (** the picker: command line and standard input to standard output *)
  rofi : list str -> str -> reply;
  (** [Path.exists] *)
  path_exists : Path -> bool
}.

(** What the script does, by call site. *)
Inductive event : Type :=
  | Printed (s : str)
  | PrintedErr (s : str)
  | RofiRun (argv : list str) (input : option str)
  | ViewerRun (argv : list str).

(** A computation that leaves a trace and returns or raises. *)
Record prog (A : Type) : Type := Prog {
  trace : list event;
  outcome : result A
}.
Arguments Prog {A} trace outcome.
Arguments trace {A} p.
Arguments outcome {A} p.

#[global] Instance prog_ret : MRet prog := fun A a => Prog [] (Ok a).
#[global] Instance prog_bind : MBind prog := fun A B f m =>
  match outcome m with
  | Ok a => Prog (trace m ++ trace (f a)) (outcome (f a))
  | Raise e => Prog (trace m) (Raise e)
  end.

Definition emit (e : event) : prog unit := Prog [e] (Ok tt).
Definition lift {A : Type} (r : result A) : prog A := Prog [] r.

(** The status the interpreter exits with: 0 when [main] returns, 1 on
    an uncaught exception. *)
Definition exit_status {A : Type} (p : prog A) : Z :=
  match outcome p with
  | Ok _ => 0
  | Raise _ => 1
  end.

(** [s.split()]: fields between runs of white space. *)
Definition isspace (c : N) : bool :=
  bool_decide (c ∈ [9; 10; 11; 12; 13; 28; 29; 30; 31; 32; 133; 160; 5760;
                    8192; 8193; 8194; 8195; 8196; 8197; 8198; 8199; 8200;
                    8201; 8202; 8232; 8233; 8239; 8287; 12288]%N).

Fixpoint split_ws_aux (field : str) (s : str) : list str :=
  match s with
  | [] => if str_eqb field [] then [] else [field]
  | c :: s' =>
      if isspace c
      then (if str_eqb field [] then [] else [field]) ++ split_ws_aux [] s'
      else split_ws_aux (field ++ [c]) s'
  end.

Definition split_ws (s : str) : list str := split_ws_aux [] s.

(** ** Opening and reporting *)

Definition open_file (app : str) (file_path : Path) : prog unit :=
  let app_and_args :=
    (fun arg => if negb (str_eqb arg (lit "%u")) then arg
                else pathlib.to_str file_path) <$> split_ws app in
  let app_and_args :=
    if negb (contains app (lit "%u"))
    then app_and_args ++ [pathlib.to_str file_path] else app_and_args in
  emit (ViewerRun app_and_args).

Definition show_error (error_msg : str) (rofi_args : option (list str))
  : prog unit :=
  let rofi_args := default [] rofi_args in
  _ ← emit (PrintedErr error_msg);
  emit (RofiRun ([lit "rofi"; lit "-e"; error_msg] ++ rofi_args) None).

(** [subprocess.run(rofi_command, capture_output=True, text=True,
    input=...)] and the reading of its output. *)
Definition run_rofi (w : world) (rofi_command : list str) (input : str)
  : prog reply :=
  _ ← emit (RofiRun rofi_command (Some input));
  mret (rofi w rofi_command input).

(** ** [main], from the four row sequences on *)

Record rows : Type := mkRows {
  all_authors : list AuthorRow;
  all_titles : list TitleRow;
  all_dates : list DateRow;
  all_paths : list PathRow
}.

(** Lines 363 to 415: the catalog and the path lists. *)
Definition build_catalog (r : rows) (zotero_path zotero_base_dir : Path)
  : result (list (str * Z) * gmap Z (list Path)) :=
  authors ← reconcile_authors (all_authors r);
  let '(titles, keys) := reconcile_titles (all_titles r) in
  let years := reconcile_years (all_dates r) in
  paths ← reconcile_paths zotero_base_dir zotero_path keys (all_paths r);
  Ok (sort_items (build_items titles authors years), paths).

(** Lines 433 to 435. *)
Definition files_of_selection (item_list_with_ids : list (str * Z))
    (paths : gmap Z (list Path)) (selected_index : Z) : result (list Path) :=
  item ← getitem item_list_with_ids selected_index;
  files_to_open ← dict_getitem paths item.2;
  Ok (sort pathlib.ltb files_to_open).

Fixpoint mapM {A B : Type} (f : A -> result B) (l : list A) : result (list B) :=
  match l with
  | [] => Ok []
  | x :: l' => y ← f x; ys ← mapM f l'; Ok (y :: ys)
  end.

(** Lines 437 to 456: the file to open, or [None] when the second picker
    is cancelled. *)
Definition choose_file (w : world) (rofi_args : list str)
    (prompt_attachment : str) (files_to_open : list Path)
  : prog (option Path) :=
  if (length files_to_open =? 1)%nat then
    file_to_open ← lift (getitem files_to_open 0); mret (Some file_to_open)
  else
    files ← lift (mapM (fun p => format_path p FORMAT_PATH_MAXLEN
                                   FORMAT_PATH_FULLPATH
                                   FORMAT_PATH_ENDING_FRACTION)
                       files_to_open);
    let files_input := join newline files in
    let rofi_command :=
      [lit "rofi"; lit "-dmenu"; lit "-format"; lit "i"] ++ rofi_args
        ++ [lit "-p"; prompt_attachment] in
    r ← run_rofi w rofi_command files_input;
    match r with
    | NoSelection => mret None
    | NotAnInteger => lift (Raise ValueError)
    | Selected i =>
        file_to_open ← lift (getitem files_to_open i); mret (Some file_to_open)
    end.

(** Lines 458 to 461. *)
Definition open_or_report (w : world) (viewer : str) (rofi_args : list str)
    (file_to_open : Path) : prog unit :=
  if path_exists w file_to_open then open_file viewer file_to_open
  else show_error (lit "Could not find file: " ++ pathlib.to_str file_to_open)
         (Some rofi_args).

(** Lines 347 to 456: everything up to the choice of the file; [None] when
    [main] returns before it has one. [rofi_args] is the list [shlex.split]
    returns. *)
Definition select_file (w : world) (r : rows) (zotero_path zotero_base_dir : Path)
    (list_only : bool) (rofi_args : list str)
    (prompt_paper prompt_attachment : str) : prog (option Path) :=
  '(item_list_with_ids, paths)
     ← lift (build_catalog r zotero_path zotero_base_dir);
  let item_list := item_list_with_ids.*1 in
  let items_input := join newline item_list in
  if list_only then _ ← emit (Printed items_input); mret None
  else
    let rofi_command :=
      [lit "rofi"; lit "-dmenu"; lit "-format"; lit "i"] ++ rofi_args
        ++ [lit "-p"; prompt_paper] in
    r ← run_rofi w rofi_command items_input;
    match r with
    | NoSelection => mret None
    | NotAnInteger => lift (Raise ValueError)
    | Selected selected_index =>
        files_to_open
          ← lift (files_of_selection item_list_with_ids paths selected_index);
        choose_file w rofi_args prompt_attachment files_to_open
    end.

Definition main_rows (w : world) (r : rows) (zotero_path zotero_base_dir : Path)
    (list_only : bool) (viewer : str) (rofi_args : list str)
    (prompt_paper prompt_attachment : str) : prog unit :=
  file ← select_file w r zotero_path zotero_base_dir list_only rofi_args
           prompt_paper prompt_attachment;
  match file with
  | None => mret tt
  | Some file_to_open => open_or_report w viewer rofi_args file_to_open
  end.

(** ** The snapshot and its four queries

    The tables of the Zotero database the queries read, with the columns
    they mention. A query is the nested loops of its [FROM] clause, in that
    order, filtered by its [ON] and [WHERE] conditions; SQL itself leaves
    the order of the rows open, and nothing below depends on it. *)

Module sqlite.

Record items_row : Type := mkItem {
  items_itemID : Z;
  items_key : str
}.

Record itemAttachments_row : Type := mkAttachment {
  ia_itemID : Z;
  ia_parentItemID : option Z;
  ia_contentType : option str;
  ia_path : option str
}.

Record itemData_row : Type := mkItemData {
  idata_itemID : Z;
  idata_fieldID : Z;
  idata_valueID : Z
}.

Record itemDataValues_row : Type := mkValue {
  idv_valueID : Z;
  idv_value : str
}.

Record creators_row : Type := mkCreator {
  cr_creatorID : Z;
  cr_lastName : str
}.

Record itemCreators_row : Type := mkItemCreator {
  ic_itemID : Z;
  ic_creatorID : Z
}.

Record database : Type := mkDatabase {
  items : list items_row;
  itemAttachments : list itemAttachments_row;
  itemData : list itemData_row;
  itemDataValues : list itemDataValues_row;
  creators : list creators_row;
  itemCreators : list itemCreators_row
}.

(** [x LIKE '%pat%']: ASCII letters match without regard to case; NULL
    matches nothing. [pat] is in lower case. *)
Definition lower (c : N) : N :=
  (if (65 <=? c) && (c <=? 90) then c + 32 else c)%N.

Definition like_contains (x : option str) (pat : str) : bool :=
  match x with
  | Some s => contains (lower <$> s) pat
  | None => false
  end.

(** One row of the join shared by the title, date and path queries. *)
Record joined : Type := mkJoined {
  j_itemAttachments : itemAttachments_row;
  j_attachmentInfo : items_row;
  j_attachmentItemData : itemData_row;
  j_attachmentItemDataValues : itemDataValues_row;
  j_parentInfo : items_row;
  j_parentItemData : itemData_row;
  j_parentItemDataValues : itemDataValues_row
}.

(** The [FROM] clause of [_QUERY_TITLES], [_QUERY_DATES] and
    [_QUERY_PATHS]. *)
Definition from_attachments (db : database) : list joined :=
  ia ← itemAttachments db;
  attachmentInfo
    ← filter (fun r => items_itemID r = ia_itemID ia) (items db);
  attachmentItemData
    ← filter (fun r => idata_itemID r = items_itemID attachmentInfo)
        (itemData db);
  attachmentItemDataValues
    ← filter (fun r => idata_valueID attachmentItemData = idv_valueID r)
        (itemDataValues db);
  parentInfo
    ← filter (fun r => ia_parentItemID ia = Some (items_itemID r))
        (items db);
  parentItemData
    ← filter (fun r => idata_itemID r = items_itemID parentInfo)
        (itemData db);
  parentItemDataValues
    ← filter (fun r => idv_valueID r = idata_valueID parentItemData)
        (itemDataValues db);
  [mkJoined ia attachmentInfo attachmentItemData attachmentItemDataValues
     parentInfo parentItemData parentItemDataValues].

(** The [WHERE] clause of [_QUERY_TITLES] and of [_QUERY_PATHS]. *)
Definition where_title_pdf (j : joined) : bool :=
  (idata_fieldID (j_attachmentItemData j) =? 1)
  && (idata_fieldID (j_parentItemData j) =? 1)
  && (like_contains (ia_contentType (j_itemAttachments j)) (lit "pdf")
      || like_contains (ia_contentType (j_itemAttachments j)) (lit "djvu")).

Definition _QUERY_TITLES (db : database) : list TitleRow :=
  (fun j => (items_itemID (j_parentInfo j),
             idv_value (j_parentItemDataValues j),
             items_key (j_attachmentInfo j)))
  <$> filter (fun j => where_title_pdf j = true) (from_attachments db).

Definition _QUERY_PATHS (db : database) : list PathRow :=
  (fun j => (items_itemID (j_parentInfo j), ia_path (j_itemAttachments j)))
  <$> filter (fun j => where_title_pdf j = true) (from_attachments db).

Definition _QUERY_DATES (db : database) : list DateRow :=
  (fun j => (items_itemID (j_parentInfo j),
             idv_value (j_parentItemDataValues j)))
  <$> filter (fun j => idata_fieldID (j_parentItemData j) = 6)
        (from_attachments db).

Definition _QUERY_AUTHORS (db : database) : list AuthorRow :=
  c ← creators db;
  ic ← filter (fun r => cr_creatorID c = ic_creatorID r) (itemCreators db);
  it ← filter (fun r => ic_itemID ic = items_itemID r) (items db);
  [(items_itemID it, cr_lastName c)].

End sqlite.

(** Lines 356 to 359. *)
Definition get_item_info (db : sqlite.database) : rows :=
  mkRows (sqlite._QUERY_AUTHORS db) (sqlite._QUERY_TITLES db)
    (sqlite._QUERY_DATES db) (sqlite._QUERY_PATHS db).

Definition main (w : world) (db : sqlite.database)
    (zotero_path zotero_base_dir : Path) (list_only : bool) (viewer : str)
    (rofi_args : list str) (prompt_paper prompt_attachment : str)
  : prog unit :=
  main_rows w (get_item_info db) zotero_path zotero_base_dir list_only viewer
    rofi_args prompt_paper prompt_attachment.

(** * Notions the properties are stated with *)

(** ** Orders of the sorted lists *)

(** [x] may stand before [y] in a list sorted with [ltb]. *)
Definition not_after {A : Type} (ltb : A -> A -> bool) (x y : A) : Prop :=
  ltb y x = false.

(** The order of the catalog in words: by label, and by identifier among
    equal labels. *)
Definition item_le (a b : str * Z) : Prop :=
  str_ltb a.1 b.1 = true \/ (a.1 = b.1 /\ a.2 <= b.2).

(** A sort by label alone that is stable: the entries of each label keep
    the order they had. *)
Definition stable_by_label (before after : list (str * Z)) : Prop :=
  forall label : str,
    filter (fun it => it.1 = label) after
    = filter (fun it => it.1 = label) before.

(** ** Author rows as runs *)

(** The rows of a sequence of runs, each an identifier with its names in
    order. *)
Definition rows_of_runs (runs : list (Z * list str)) : list AuthorRow :=
  run ← runs; (fun name => (run.1, name)) <$> run.2.

(** Every run has a name and differs from the next in its identifier. *)
Fixpoint contiguous (runs : list (Z * list str)) : Prop :=
  match runs with
  | [] => True
  | run :: rest =>
      run.2 <> []
      /\ match rest with
         | [] => True
         | next :: _ => run.1 <> next.1
         end
      /\ contiguous rest
  end.

(** The single, double or multiple author template on a list of names. *)
Definition author_template (names : list str) : str :=
  match names with
  | [] => []
  | [author1] => FORMAT_AUTHORS_SINGLE author1
  | [author1; author2] => FORMAT_AUTHORS_TWO author1 author2
  | author1 :: _ => FORMAT_AUTHORS_MULTIPLE author1
  end.

(** One entry for each run, later runs overwriting earlier ones. *)
Definition entries_of_runs (runs : list (Z * list str)) : gmap Z str :=
  foldl (fun m run => <[run.1 := author_template run.2]> m) ∅ runs.

(** ** The date row that is kept *)

(** The date of the first row with the identifier [id]. *)
Fixpoint kept_date (all_dates : list DateRow) (id : Z) : option str :=
  match all_dates with
  | [] => None
  | (date_id, date) :: rest =>
      if date_id =? id then Some date else kept_date rest id
  end.

(** ** Events of the viewer *)

Definition is_viewer_run (e : event) : bool :=
  match e with
  | ViewerRun _ => true
  | _ => false
  end.

(** ** Inputs the statements are tried on *)

Module sample.

Definition zotero_path : Path := pathlib.of_str (lit "/zotero").
Definition zotero_base_dir : Path := pathlib.of_str (lit "/base").

(** Three titles, two of them with one label, in the order the title
    query returned them. *)
Definition titles_BAA : list (Z * str) :=
  [(1, lit "B item"); (3, lit "A item"); (2, lit "A item")].

Definition rows_BAA : rows :=
  mkRows [(9, lit "X")]
    [(1, lit "B item", lit "K1"); (3, lit "A item", lit "K3");
     (2, lit "A item", lit "K2")]
    [] [].

(** One item with one author row before it, its title, and one attachment
    that is not on disk; the picker answers 0. *)
Definition rows_one : rows :=
  mkRows [(1, lit "Smith"); (9, lit "X")] [(1, lit "T", lit "K1")] []
    [(1, Some (lit "/a.pdf"))].

Definition world_missing : world :=
  mkWorld (fun _ _ => Selected 0) (fun _ => false).

(** One item with two attachments, recorded as b.pdf then a.pdf. *)
Definition rows_two_files : rows :=
  mkRows [(1, lit "Smith"); (9, lit "X")] [(1, lit "T", lit "K1")] []
    [(1, Some (lit "/b.pdf")); (1, Some (lit "/a.pdf"))].

(** A library of two parents with attachments and one without. Item 1 has
    a PDF attachment (item 2) whose path is NULL; item 4 has an HTML
    attachment (item 5) and a date; item 3 has an author and no
    attachment. *)
Definition db_null_path : sqlite.database :=
  sqlite.mkDatabase
    [sqlite.mkItem 1 (lit "PARENT01"); sqlite.mkItem 2 (lit "ATTACH02");
     sqlite.mkItem 3 (lit "PARENT03"); sqlite.mkItem 4 (lit "PARENT04");
     sqlite.mkItem 5 (lit "ATTACH05")]
    [sqlite.mkAttachment 2 (Some 1) (Some (lit "application/pdf")) None;
     sqlite.mkAttachment 5 (Some 4) (Some (lit "text/html"))
       (Some (lit "storage:page.html"))]
    [sqlite.mkItemData 1 1 10; sqlite.mkItemData 2 1 20;
     sqlite.mkItemData 4 6 40; sqlite.mkItemData 5 1 50]
    [sqlite.mkValue 10 (lit "Paper"); sqlite.mkValue 20 (lit "paper.pdf");
     sqlite.mkValue 40 (lit "2020-01-01"); sqlite.mkValue 50 (lit "page")]
    [sqlite.mkCreator 100 (lit "Smith"); sqlite.mkCreator 101 (lit "Jones")]
    [sqlite.mkItemCreator 3 100; sqlite.mkItemCreator 1 101].

(** The same library with the path of the PDF set. *)
Definition db_with_path : sqlite.database :=
  sqlite.mkDatabase
    (sqlite.items db_null_path)
    [sqlite.mkAttachment 2 (Some 1) (Some (lit "application/pdf"))
       (Some (lit "storage:paper.pdf"));
     sqlite.mkAttachment 5 (Some 4) (Some (lit "text/html"))
       (Some (lit "storage:page.html"))]
    (sqlite.itemData db_null_path)
    (sqlite.itemDataValues db_null_path)
    (sqlite.creators db_null_path)
    (sqlite.itemCreators db_null_path).

End sample.

(** ** The title row that is kept *)

(** The title and the key of the first row with the identifier [id]. *)
Fixpoint kept_title (all_titles : list TitleRow) (id : Z)
  : option (str * str) :=
  match all_titles with
  | [] => None
  | (title_id, title, key) :: rest =>
      if title_id =? id then Some (title, key) else kept_title rest id
  end.

(** ** The paths of the rows of one identifier *)

(** The resolved paths of the rows of [id] that have a path, in the order
    of the rows. *)
Definition resolved_rows (zotero_base_dir zotero_path : Path)
    (keys : gmap Z str) (all_paths : list PathRow) (id : Z) : list Path :=
  omap (fun row : PathRow =>
          if row.1 =? id then
            match row.2 with
            | Some raw =>
                match resolve_path zotero_base_dir zotero_path keys id raw with
                | Ok p => Some p
                | Raise _ => None
                end
            | None => None
            end
          else None)
       all_paths.

(** ** Kinds of events *)

Definition is_printed_err (e : event) : bool :=
  match e with
  | PrintedErr _ => true
  | _ => false
  end.

(** The two parts of a label before the title. *)
Definition label_author (author : option str) : str :=
  if truthy author then default [] author else lit "Unknown".

Definition label_year (year : option str) : str :=
  if truthy year then lit " (" ++ default [] year ++ lit ")" else [].

(** The state of the title loop: [titles] and [keys] hold the same
    identifiers, each once. *)
Definition titles_inv (st : list (Z * str) * gmap Z str) : Prop :=
  NoDup st.1.*1 /\ forall id, id ∈ st.1.*1 <-> is_Some (st.2 !! id).

(** The events up to the choice of the file: a menu or the printed list. *)
Definition is_menu_or_print (e : event) : bool :=
  match e with
  | RofiRun _ (Some _) => true
  | Printed _ => true
  | _ => false
  end.

(** ** More inputs *)

Module sample_world.

(** Every file is on disk and the picker answers 0. *)
Definition present : world :=
  mkWorld (fun _ _ => Selected 0) (fun _ => true).

(** The picker is cancelled. *)
Definition cancelled : world :=
  mkWorld (fun _ _ => NoSelection) (fun _ => true).

End sample_world.

(** ** Normalised path texts *)

(** A component pathlib keeps as it is: not empty, not ".", without a
    slash. *)
Definition plain (c : str) : Prop :=
  c <> [] /\ c <> lit "." /\ pathlib.sep ∉ c.

(** The text of a relative path: the components with single slashes
    between them. *)
Definition rel_text (comps : list str) : str := join [pathlib.sep] comps.

(** The text of an absolute path: a slash and the components. *)
Definition abs_text (comps : list str) : str :=
  [pathlib.sep] ++ join [pathlib.sep] comps.

Module sample_picker.

(** The first picker answers [first] and the second, recognised by its
    prompt "attachment", answers [second]; every file is on disk. *)
Definition picks (first second : reply) : world :=
  mkWorld (fun rofi_command _ =>
             if str_eqb (default [] (last rofi_command)) (lit "attachment")
             then second else first)
          (fun _ => true).


End sample_picker.

(** * Properties *)

(** ** Strings *)

Lemma startswith_app (p s : str) : startswith (p ++ s) p = true.
Proof.
  induction p as [|c p IH]; [done|].
  simpl. by rewrite N.eqb_refl, IH.
Qed.

Lemma startswith_inv (s p : str) :
  startswith s p = true -> exists rest, s = p ++ rest.
Proof.
  revert s. induction p as [|c p IH]; intros s H.
  - by exists s.
  - destruct s as [|d s]; [done|]. simpl in H.
    apply andb_prop in H as [Hc Hs]. apply N.eqb_eq in Hc as ->.
    destruct (IH _ Hs) as [rest ->]. by exists rest.
Qed.

(** Replacing the first occurrence of a prefix removes the prefix. *)
Lemma replace_first_prefix (p rest new : str) :
  replace_first (p ++ rest) p new = new ++ rest.
Proof.
  destruct p as [|c p].
  - by destruct rest.
  - cbn [replace_first app]. change (c :: p ++ rest) with ((c :: p) ++ rest).
    rewrite startswith_app. by rewrite drop_app_length.
Qed.

Lemma str_eqb_eq (a b : str) : str_eqb a b = true <-> a = b.
Proof. unfold str_eqb. apply bool_decide_eq_true. Qed.

Lemma str_eqb_refl (a : str) : str_eqb a a = true.
Proof. by apply str_eqb_eq. Qed.

(** ** Strict total orders *)

Section strict_total.
Context {A : Type} (ltb : A -> A -> bool).
Hypothesis ltb_irrefl : forall x, ltb x x = false.
Hypothesis ltb_trans :
  forall x y z, ltb x y = true -> ltb y z = true -> ltb x z = true.
Hypothesis ltb_total :
  forall x y, ltb x y = false -> ltb y x = false -> x = y.

Lemma strict_asym (x y : A) : ltb x y = true -> ltb y x = false.
Proof.
  intros H. destruct (ltb y x) eqn:E; [|done].
  pose proof (ltb_trans _ _ _ H E) as H'. by rewrite ltb_irrefl in H'.
Qed.

Lemma strict_negtrans (x y z : A) :
  ltb x z = true -> ltb x y = true \/ ltb y z = true.
Proof.
  intros Hxz. destruct (ltb x y) eqn:Hxy; [by left|right].
  destruct (ltb y x) eqn:Hyx.
  - by eapply ltb_trans.
  - by rewrite <- (ltb_total _ _ Hxy Hyx).
Qed.
End strict_total.

(** ** The order on sequences *)

Section seq_order.
Context {A : Type} (eqb ltb : A -> A -> bool).
Hypothesis eqb_eq : forall x y, eqb x y = true <-> x = y.
Hypothesis ltb_irrefl : forall x, ltb x x = false.
Hypothesis ltb_trans :
  forall x y z, ltb x y = true -> ltb y z = true -> ltb x z = true.
Hypothesis ltb_total :
  forall x y, ltb x y = false -> ltb y x = false -> x = y.

Lemma eqb_refl' x : eqb x x = true.
Proof. by apply eqb_eq. Qed.

Lemma eqb_sym' x y : eqb x y = eqb y x.
Proof.
  destruct (eqb x y) eqn:E1, (eqb y x) eqn:E2; try done.
  - apply eqb_eq in E1 as ->. by rewrite eqb_refl' in E2.
  - apply eqb_eq in E2 as ->. by rewrite eqb_refl' in E1.
Qed.

Lemma seq_ltb_irrefl (a : list A) : seq_ltb eqb ltb a a = false.
Proof. induction a as [|x a IH]; [done|]. simpl. by rewrite eqb_refl'. Qed.

Lemma seq_ltb_trans (a b c : list A) :
  seq_ltb eqb ltb a b = true -> seq_ltb eqb ltb b c = true ->
  seq_ltb eqb ltb a c = true.
Proof.
  revert b c. induction a as [|x a IH]; intros [|y b] [|z c]; try done.
  simpl. destruct (eqb x y) eqn:Exy.
  - apply eqb_eq in Exy as ->. destruct (eqb y z); [apply IH | done].
  - intros Hxy. destruct (eqb y z) eqn:Eyz.
    + apply eqb_eq in Eyz as ->. by rewrite Exy.
    + intros Hyz. destruct (eqb x z) eqn:Exz.
      * apply eqb_eq in Exz as ->.
        pose proof (ltb_trans _ _ _ Hxy Hyz) as H.
        by rewrite ltb_irrefl in H.
      * eauto.
Qed.

Lemma seq_ltb_total (a b : list A) :
  seq_ltb eqb ltb a b = false -> seq_ltb eqb ltb b a = false -> a = b.
Proof.
  revert b. induction a as [|x a IH]; intros [|y b]; try done.
  simpl. rewrite (eqb_sym' y x). destruct (eqb x y) eqn:Exy.
  - apply eqb_eq in Exy as ->. intros H1 H2. f_equal. by apply IH.
  - intros H1 H2. pose proof (ltb_total _ _ H1 H2) as ->.
    by rewrite eqb_refl' in Exy.
Qed.

End seq_order.

Lemma str_ltb_irrefl (a : str) : str_ltb a a = false.
Proof. apply seq_ltb_irrefl. intros x y. apply N.eqb_eq. Qed.

Lemma str_ltb_trans (a b c : str) :
  str_ltb a b = true -> str_ltb b c = true -> str_ltb a c = true.
Proof.
  apply seq_ltb_trans.
  - intros x y. apply N.eqb_eq.
  - apply N.ltb_irrefl.
  - intros x y z. rewrite !N.ltb_lt. lia.
Qed.

Lemma str_ltb_total (a b : str) :
  str_ltb a b = false -> str_ltb b a = false -> a = b.
Proof.
  apply seq_ltb_total.
  - intros x y. apply N.eqb_eq.
  - intros x y. rewrite !N.ltb_ge. lia.
Qed.

Lemma str_ltb_asym (a b : str) : str_ltb a b = true -> str_ltb b a = false.
Proof. apply strict_asym; [apply str_ltb_irrefl | apply str_ltb_trans]. Qed.

(** The order on catalog entries. *)
Lemma item_ltb_irrefl (a : str * Z) : item_ltb a a = false.
Proof. unfold item_ltb. rewrite str_eqb_refl. apply Z.ltb_irrefl. Qed.

Lemma item_ltb_trans (a b c : str * Z) :
  item_ltb a b = true -> item_ltb b c = true -> item_ltb a c = true.
Proof.
  destruct a as [la ia], b as [lb ib], c as [lc ic]. unfold item_ltb. simpl.
  destruct (str_eqb la lb) eqn:Eab.
  - apply str_eqb_eq in Eab as ->.
    destruct (str_eqb lb lc); [|done]. rewrite !Z.ltb_lt. lia.
  - intros Hab. destruct (str_eqb lb lc) eqn:Ebc.
    + apply str_eqb_eq in Ebc as ->. by rewrite Eab.
    + intros Hbc. pose proof (str_ltb_trans _ _ _ Hab Hbc) as Hac.
      destruct (str_eqb la lc) eqn:Eac; [|done].
      apply str_eqb_eq in Eac as ->. by rewrite str_ltb_irrefl in Hac.
Qed.

Lemma item_ltb_total (a b : str * Z) :
  item_ltb a b = false -> item_ltb b a = false -> a = b.
Proof.
  destruct a as [la ia], b as [lb ib]. unfold item_ltb. simpl.
  destruct (str_eqb la lb) eqn:Eab.
  - apply str_eqb_eq in Eab as ->. rewrite str_eqb_refl, !Z.ltb_ge.
    intros. f_equal. lia.
  - intros H1. destruct (str_eqb lb la) eqn:Eba.
    + apply str_eqb_eq in Eba as ->. by rewrite str_eqb_refl in Eab.
    + intros H2. pose proof (str_ltb_total _ _ H1 H2) as ->.
      by rewrite str_eqb_refl in Eab.
Qed.

(** [not_after item_ltb] in words: by label, then by identifier. *)
Lemma not_after_item_le (a b : str * Z) : not_after item_ltb a b <-> item_le a b.
Proof.
  unfold not_after, item_le, item_ltb.
  destruct (str_eqb b.1 a.1) eqn:E.
  - apply str_eqb_eq in E. rewrite Z.ltb_ge. split.
    + intros H. right. split; [done | lia].
    + intros [H|[_ H]]; [|lia].
      rewrite E, str_ltb_irrefl in H. done.
  - split.
    + intros H. destruct (str_ltb a.1 b.1) eqn:E'; [by left|].
      pose proof (str_ltb_total _ _ E' H) as Heq.
      rewrite Heq, str_eqb_refl in E. done.
    + intros [H|[H _]]; [by apply str_ltb_asym|].
      rewrite H, str_eqb_refl in E. done.
Qed.

(** The order on paths. *)
Lemma path_ltb_asym (p q : Path) :
  pathlib.ltb p q = true -> pathlib.ltb q p = false.
Proof.
  apply (strict_asym (seq_ltb str_eqb str_ltb)).
  - apply seq_ltb_irrefl, str_eqb_eq.
  - apply seq_ltb_trans;
      [apply str_eqb_eq | apply str_ltb_irrefl | apply str_ltb_trans].
Qed.

Lemma path_ltb_negtrans (p q r : Path) :
  pathlib.ltb p r = true -> pathlib.ltb p q = true \/ pathlib.ltb q r = true.
Proof.
  apply (strict_negtrans (seq_ltb str_eqb str_ltb)).
  - apply seq_ltb_trans;
      [apply str_eqb_eq | apply str_ltb_irrefl | apply str_ltb_trans].
  - apply seq_ltb_total; [apply str_eqb_eq | apply str_ltb_total].
Qed.

(** ** [list.sort] *)

Section sorting.
Context {A : Type} (ltb : A -> A -> bool).

Lemma insert_sorted_perm (x : A) (l : list A) :
  Permutation (x :: l) (insert_sorted ltb x l).
Proof.
  induction l as [|y l IH]; [done|]. simpl.
  destruct (ltb y x); [|done].
  rewrite <- IH. apply perm_swap.
Qed.

Lemma sort_perm (l : list A) : Permutation l (sort ltb l).
Proof.
  induction l as [|x l IH]; [done|]. simpl.
  rewrite <- insert_sorted_perm. by constructor.
Qed.

(** What [sort] needs of [<]: a strict weak order. *)
Hypothesis ltb_asym : forall x y, ltb x y = true -> ltb y x = false.
Hypothesis ltb_negtrans :
  forall x y z, ltb x z = true -> ltb x y = true \/ ltb y z = true.

Lemma not_after_trans (x y z : A) :
  not_after ltb x y -> not_after ltb y z -> not_after ltb x z.
Proof.
  unfold not_after. intros Hxy Hyz.
  destruct (ltb z x) eqn:Hzx; [|done].
  destruct (ltb_negtrans z y x Hzx) as [H|H]; congruence.
Qed.

Lemma ltb_not_after (x y : A) : ltb x y = true -> not_after ltb x y.
Proof. apply ltb_asym. Qed.

Lemma insert_sorted_sorted (x : A) (l : list A) :
  StronglySorted (not_after ltb) l -> StronglySorted (not_after ltb) (insert_sorted ltb x l).
Proof.
  induction 1 as [|y l Hl IH Hy]; simpl.
  - repeat constructor.
  - destruct (ltb y x) eqn:E.
    + constructor; [done|].
      apply (Permutation_Forall (insert_sorted_perm x l)).
      constructor; [by apply ltb_not_after | done].
    + constructor; [by constructor|].
      constructor; [done|].
      eapply Forall_impl; [exact Hy|].
      intros z Hz. by eapply not_after_trans.
Qed.

Lemma sort_sorted (l : list A) : StronglySorted (not_after ltb) (sort ltb l).
Proof.
  induction l as [|x l IH]; simpl; [constructor|].
  by apply insert_sorted_sorted.
Qed.
End sorting.

(** ** The catalog *)

Lemma StronglySorted_impl {A : Type} (R S : A -> A -> Prop) (l : list A) :
  (forall x y, R x y -> S x y) -> StronglySorted R l -> StronglySorted S l.
Proof.
  intros HRS. induction 1 as [|x l Hl IH Hx]; constructor; [done|].
  eapply Forall_impl; [exact Hx | auto].
Qed.

Lemma sort_items_sorted (l : list (str * Z)) :
  StronglySorted item_le (sort_items l).
Proof.
  apply (StronglySorted_impl (not_after item_ltb)).
  - intros x y. apply not_after_item_le.
  - apply sort_sorted.
    + apply strict_asym; [apply item_ltb_irrefl | apply item_ltb_trans].
    + apply strict_negtrans; [apply item_ltb_trans | apply item_ltb_total].
Qed.

Lemma titles_loop_NoDup (st : list (Z * str) * gmap Z str) (l : list TitleRow) :
  NoDup st.1.*1 -> NoDup (foldl titles_body st l).1.*1.
Proof.
  revert st. induction l as [|[[title_id title] key] l IH]; intros [titles keys] H;
    [done|].
  simpl. apply IH. case_bool_decide as Hin; simpl; [done|].
  rewrite fmap_app. apply NoDup_app. split; [done|]. split.
  - intros x Hx Hx'. apply list_elem_of_singleton in Hx'. by subst.
  - apply NoDup_singleton.
Qed.

Lemma reconcile_titles_NoDup (all_titles : list TitleRow) :
  NoDup (reconcile_titles all_titles).1.*1.
Proof. apply titles_loop_NoDup. constructor. Qed.

Lemma build_items_ids (titles : list (Z * str)) (authors years : gmap Z str) :
  (build_items titles authors years).*2 = titles.*1.
Proof.
  unfold build_items. induction titles as [|[item_id title] l IH]; [done|].
  simpl. by f_equal.
Qed.

(** Unfolding [build_catalog] when it returns. *)
Lemma build_catalog_Ok (r : rows) (zotero_path zotero_base_dir : Path)
    (c : list (str * Z)) (paths : gmap Z (list Path)) :
  build_catalog r zotero_path zotero_base_dir = Ok (c, paths) ->
  exists authors,
    reconcile_authors (all_authors r) = Ok authors
    /\ reconcile_paths zotero_base_dir zotero_path
         (reconcile_titles (all_titles r)).2 (all_paths r) = Ok paths
    /\ c = sort_items (build_items (reconcile_titles (all_titles r)).1 authors
                         (reconcile_years (all_dates r))).
Proof.
  unfold build_catalog. intros H.
  destruct (reconcile_authors (all_authors r)) as [authors|e]; [|done].
  exists authors. simpl in H.
  destruct (reconcile_titles (all_titles r)) as [titles keys]. simpl in *.
  destruct (reconcile_paths zotero_base_dir zotero_path keys (all_paths r))
    as [paths'|e]; [|done].
  simpl in H. by inversion H.
Qed.

(** C3, as the code has it: the catalog is the list of (label, identifier)
    pairs sorted as pairs, so it ascends by label and, among equal labels,
    by identifier; it holds each titled identifier once. Entries with equal
    labels stand in ascending order of identifier, whatever their order in
    the title rows was. *)
Theorem catalog_sorted_by_label_then_id
    (r : rows) (zotero_path zotero_base_dir : Path)
    (c : list (str * Z)) (paths : gmap Z (list Path)) :
  build_catalog r zotero_path zotero_base_dir = Ok (c, paths) ->
  StronglySorted item_le c
  /\ NoDup c.*2
  /\ exists authors,
       reconcile_authors (all_authors r) = Ok authors
       /\ Permutation
            (build_items (reconcile_titles (all_titles r)).1 authors
               (reconcile_years (all_dates r)))
            c.
Proof.
  intros H. apply build_catalog_Ok in H as (authors & Ha & _ & ->).
  split; [apply sort_items_sorted|]. split.
  - unfold sort_items. rewrite <- sort_perm, build_items_ids.
    apply reconcile_titles_NoDup.
  - exists authors. split; [done|]. apply sort_perm.
Qed.

Lemma catalog_sorted_by_label_then_id_witness :
  let c := [(lit "Unknown - A item", 2); (lit "Unknown - A item", 3);
            (lit "Unknown - B item", 1)] in
  build_catalog sample.rows_BAA sample.zotero_path sample.zotero_base_dir
    = Ok (c, ∅)
  /\ StronglySorted item_le c.
Proof.
  assert (build_catalog sample.rows_BAA sample.zotero_path
            sample.zotero_base_dir
          = Ok ([(lit "Unknown - A item", 2); (lit "Unknown - A item", 3);
                 (lit "Unknown - B item", 1)], ∅)) as H
    by (vm_compute; reflexivity).
  split; [exact H|].
  exact (proj1 (catalog_sorted_by_label_then_id _ _ _ _ _ H)).
Defined.

(** C3 as stated fails: with the titles "B item", "A item", "A item" on the
    identifiers 1, 3, 2, the two entries with the equal label come out as
    2, 3, the reverse of their order before the sort. *)
Lemma catalog_sort_not_stable_cex :
  let before := build_items sample.titles_BAA ∅ ∅ in
  before.*2 = [1; 3; 2]
  /\ (sort_items before).*2 = [2; 3; 1]
  /\ ~ stable_by_label before (sort_items before).
Proof.
  split; [reflexivity|]. split; [vm_compute; reflexivity|].
  intros H. specialize (H (lit "Unknown - A item")).
  vm_compute in H. discriminate H.
Qed.

(** ** The author loop *)

Lemma foldM_app {A S : Type} (body : S -> A -> result S) (s : S) (l1 l2 : list A) :
  foldM body s (l1 ++ l2) = (s' ← foldM body s l1; foldM body s' l2).
Proof.
  revert s. induction l1 as [|x l1 IH]; intros s; [done|].
  simpl. destruct (body s x) as [s'|e]; simpl; [apply IH | done].
Qed.

Lemma format_authors_template (names : list str) :
  names <> [] -> format_authors names = Ok (author_template names).
Proof. destruct names as [|a [|b [|c l]]]; done. Qed.

(** Rows of the current identifier are appended to the running list. *)
Lemma authors_loop_same_run (id : Z) (l : list str) (m : gmap Z str)
    (names : list str) :
  foldM authors_body (mkAuthorState id l m) ((fun name => (id, name)) <$> names)
  = Ok (mkAuthorState id (l ++ names) m).
Proof.
  revert l. induction names as [|name names IH]; intros l; simpl.
  - by rewrite app_nil_r.
  - unfold authors_body at 1. simpl. rewrite Z.eqb_refl. simpl.
    rewrite IH. by rewrite <- app_assoc.
Qed.

(** A row with another identifier stores the running list under the
    previous identifier. *)
Lemma authors_loop_next_run (id id' : Z) (l : list str) (m : gmap Z str)
    (names : list str) :
  id <> id' -> l <> [] -> names <> [] ->
  foldM authors_body (mkAuthorState id l m) ((fun name => (id', name)) <$> names)
  = Ok (mkAuthorState id' names (<[id := author_template l]> m)).
Proof.
  intros Hne Hl Hnames. destruct names as [|name names]; [done|].
  simpl. unfold authors_body at 1. simpl.
  destruct (Z.eqb_spec id' id) as [->|_]; [done|]. simpl.
  rewrite (format_authors_template l Hl). simpl.
  apply (authors_loop_same_run id' [name]).
Qed.

Lemma rows_of_runs_app (runs1 runs2 : list (Z * list str)) :
  rows_of_runs (runs1 ++ runs2) = rows_of_runs runs1 ++ rows_of_runs runs2.
Proof. unfold rows_of_runs. apply bind_app. Qed.

Lemma rows_of_runs_singleton (run : Z * list str) :
  rows_of_runs [run] = (fun name => (run.1, name)) <$> run.2.
Proof. unfold rows_of_runs. simpl. apply app_nil_r. Qed.

Lemma contiguous_snoc (runs : list (Z * list str)) (run last : Z * list str) :
  contiguous ((runs ++ [run]) ++ [last]) ->
  contiguous (runs ++ [run]) /\ run.1 <> last.1 /\ run.2 <> [] /\ last.2 <> [].
Proof.
  induction runs as [|r runs IH]; simpl.
  - intros (H1 & H2 & H3 & _). done.
  - intros (H1 & H2 & H3). destruct (IH H3) as (H4 & H5 & H6 & H7).
    repeat split; try done.
    by destruct runs.
Qed.

(** The state of the loop after a sequence of contiguous runs, started on
    the identifier [id0]: the last run is still in [author_list]; the runs
    before it are in [authors]. *)
Lemma authors_loop_runs (id0 : Z) (runs : list (Z * list str))
    (last : Z * list str) :
  contiguous (runs ++ [last]) ->
  head (runs ++ [last]).*1 = Some id0 ->
  foldM authors_body (mkAuthorState id0 [] ∅) (rows_of_runs (runs ++ [last]))
  = Ok (mkAuthorState last.1 last.2 (entries_of_runs runs)).
Proof.
  revert last. induction runs as [|run runs IH] using rev_ind; intros last Hc Hid.
  - simpl in Hid. injection Hid as <-. rewrite app_nil_l.
    rewrite rows_of_runs_singleton. apply authors_loop_same_run.
  - apply contiguous_snoc in Hc as (Hc & Hne & Hrun & Hlast).
    rewrite rows_of_runs_app, foldM_app, IH; [|done|].
    + rewrite rows_of_runs_singleton. cbn [mbind result_bind].
      rewrite authors_loop_next_run by done.
      unfold entries_of_runs. by rewrite foldl_app.
    + rewrite fmap_app in Hid. destruct ((runs ++ [run]).*1) eqn:E; [|done].
      rewrite fmap_app in E. by destruct (runs.*1).
Qed.

(** On contiguous runs the author map has the entries of all runs but the
    last; the last run is never stored. *)
Lemma reconcile_authors_runs (runs : list (Z * list str)) (last : Z * list str) :
  contiguous (runs ++ [last]) ->
  reconcile_authors (rows_of_runs (runs ++ [last])) = Ok (entries_of_runs runs).
Proof.
  intros Hc. unfold reconcile_authors, authors_loop.
  assert (exists row0 rest, rows_of_runs (runs ++ [last]) = row0 :: rest
            /\ head (runs ++ [last]).*1 = Some row0.1) as (row0 & rest & E & Hid).
  { destruct runs as [|[id names] runs]; simpl in *.
    - destruct last as [id [|name names]]; [by destruct Hc|].
      by eexists _, _.
    - destruct names as [|name names]; [by destruct Hc|].
      unfold rows_of_runs. simpl. by eexists _, _. }
  rewrite E at 1. unfold getitem. simpl.
  by rewrite (authors_loop_runs row0.1 runs last Hc Hid).
Qed.

Lemma entries_of_runs_lookup_None (runs : list (Z * list str)) (id : Z) :
  id ∉ runs.*1 -> entries_of_runs runs !! id = None.
Proof.
  unfold entries_of_runs. induction runs as [|run runs IH] using rev_ind;
    intros Hid; [done|].
  rewrite foldl_app. simpl. rewrite fmap_app in Hid.
  apply not_elem_of_app in Hid as [Hruns Hrun].
  rewrite lookup_insert_ne; [by apply IH|].
  intros E. apply Hrun. simpl. rewrite E. by left.
Qed.

(** C1 on the code: with the rows of one author the map comes out empty,
    and with two runs only the first has an entry, where the claim has an
    entry for every identifier. *)
Theorem authors_final_run_not_stored :
  reconcile_authors [(1, lit "Smith")] = Ok ∅
  /\ reconcile_authors [(1, lit "Smith"); (1, lit "Jones"); (2, lit "Doe")]
     = Ok {[1 := lit "Smith and Jones"]}.
Proof. split; vm_compute; reflexivity. Qed.

(** C7 on the code: without author rows [main] raises [IndexError] on line
    363 before anything is shown, and the interpreter exits with status 1. *)
Theorem main_raises_without_authors
    (w : world) (all_titles : list TitleRow) (all_dates : list DateRow)
    (all_paths : list PathRow) (zotero_path zotero_base_dir : Path)
    (list_only : bool) (viewer : str) (rofi_args : list str)
    (prompt_paper prompt_attachment : str) :
  let run := main_rows w (mkRows [] all_titles all_dates all_paths)
               zotero_path zotero_base_dir list_only viewer rofi_args
               prompt_paper prompt_attachment in
  run = Prog [] (Raise IndexError) /\ exit_status run = 1.
Proof. done. Qed.

(** ** Path resolution *)

(** pathlib's [/]: a remainder without a leading slash adds its components
    to the parts of the base; one with a leading slash replaces the base. *)
Lemma truediv_relative (p : Path) (rest : str) :
  head rest <> Some pathlib.sep ->
  p // rest
  = pathlib.mkPath (pathlib.root p)
      (pathlib.parts p ++ pathlib.components rest).
Proof.
  intros Hhead. unfold pathlib.truediv, pathlib.parse_parts. simpl.
  destruct rest as [|c rest]; simpl; [reflexivity|].
  destruct (N.eqb_spec c pathlib.sep) as [->|_]; [done|]. reflexivity.
Qed.

Lemma truediv_absolute (p : Path) (rest : str) :
  head rest = Some pathlib.sep -> p // rest = pathlib.of_str rest.
Proof.
  intros Hhead. destruct rest as [|c rest]; [done|]. injection Hhead as ->.
  unfold pathlib.truediv, pathlib.of_str, pathlib.join_parsed_parts.
  assert (str_eqb (pathlib.root (pathlib.parse_parts [pathlib.sep :: rest])) []
          = false) as ->; [|done].
  unfold pathlib.parse_parts. simpl.
  change (str_eqb (pathlib.sep :: rest) []) with false. cbn match.
  by destruct (_ =? 2).
Qed.

(** The three branches of the resolution, with pathlib's [/] and [Path];
    the result depends on [keys] only through the storage key of the row's
    identifier. *)
Lemma resolve_path_cases
    (zotero_base_dir zotero_path : Path) (keys : gmap Z str) (path_id : Z) :
  (forall rest : str,
      resolve_path zotero_base_dir zotero_path keys path_id
        (lit "attachments:" ++ rest)
      = Ok (zotero_base_dir // rest))
  /\ (forall (rest key : str),
        keys !! path_id = Some key ->
        resolve_path zotero_base_dir zotero_path keys path_id
          (lit "storage:" ++ rest)
        = Ok (zotero_path // lit "storage" // key // rest))
  /\ (forall raw : str,
        startswith raw (lit "attachments:") = false ->
        startswith raw (lit "storage:") = false ->
        resolve_path zotero_base_dir zotero_path keys path_id raw
        = Ok (pathlib.of_str raw))
  /\ (forall (keys' : gmap Z str) (raw : str),
        keys' !! path_id = keys !! path_id ->
        resolve_path zotero_base_dir zotero_path keys' path_id raw
        = resolve_path zotero_base_dir zotero_path keys path_id raw)
  /\ pathlib.to_str (pathlib.of_str (lit "/base") // lit "foo/bar.pdf")
     = lit "/base/foo/bar.pdf"
  /\ pathlib.to_str
       (pathlib.of_str (lit "/zotero") // lit "storage" // lit "ABCD1234"
          // lit "bar.pdf")
     = lit "/zotero/storage/ABCD1234/bar.pdf"
  /\ pathlib.to_str (pathlib.of_str (lit "/already/absolute.pdf"))
     = lit "/already/absolute.pdf".
Proof.
  split; [|split; [|split; [|split]]].
  - intros rest. unfold resolve_path.
    rewrite startswith_app, replace_first_prefix. reflexivity.
  - intros rest key Hkey. unfold resolve_path.
    change (startswith (lit "storage:" ++ rest) (lit "attachments:"))
      with false.
    cbn match. rewrite startswith_app, replace_first_prefix.
    unfold dict_getitem. rewrite Hkey. reflexivity.
  - intros raw H1 H2. unfold resolve_path. by rewrite H1, H2.
  - intros keys' raw Hkeys. unfold resolve_path, dict_getitem.
    by rewrite Hkeys.
  - repeat split; vm_compute; reflexivity.
Qed.

Lemma resolve_path_cases_witness :
  resolve_path sample.zotero_base_dir sample.zotero_path
    {[7 := lit "ABCD1234"]} 7 (lit "storage:" ++ lit "bar.pdf")
  = Ok (sample.zotero_path // lit "storage" // lit "ABCD1234" // lit "bar.pdf")
  /\ resolve_path sample.zotero_base_dir sample.zotero_path
       {[7 := lit "ABCD1234"]} 7 (lit "/already/absolute.pdf")
     = Ok (pathlib.of_str (lit "/already/absolute.pdf")).
Proof.
  destruct (resolve_path_cases sample.zotero_base_dir sample.zotero_path
              {[7 := lit "ABCD1234"]} 7) as (_ & Hstorage & Hother & _).
  split.
  - apply Hstorage. reflexivity.
  - apply Hother; reflexivity.
Defined.

(** ** The path loop *)

(** The test of line 391 compares the text of a list with the raw
    expression, so it can only hold for an expression that starts with an
    opening bracket. *)
Lemma already_recorded_bracket (paths : gmap Z (list Path)) (path_id : Z)
    (path : str) :
  already_recorded paths path_id path = true -> head path = Some 91%N.
Proof.
  unfold already_recorded. destruct (paths !! path_id) as [l|]; [|done].
  intros H. apply str_eqb_eq in H. by rewrite <- H.
Qed.

(** C4 on the code: three rows of one item that resolve to the one path
    [/base/a.pdf] leave that path three times in the item's list. *)
Theorem duplicate_paths_recorded (zotero_path : Path) (keys : gmap Z str) :
  let p := pathlib.of_str (lit "/base/a.pdf") in
  resolve_path sample.zotero_base_dir zotero_path keys 1
    (lit "attachments:a.pdf") = Ok p
  /\ resolve_path sample.zotero_base_dir zotero_path keys 1
       (lit "/base/a.pdf") = Ok p
  /\ reconcile_paths sample.zotero_base_dir zotero_path keys
       [(1, Some (lit "attachments:a.pdf")); (1, Some (lit "/base/a.pdf"));
        (1, Some (lit "/base/a.pdf"))]
     = Ok {[1 := [p; p; p]]}.
Proof. repeat split; vm_compute; reflexivity. Qed.

(** ** Labels *)

Lemma years_loop_lookup (years : gmap Z str) (all_dates : list DateRow) (id : Z) :
  foldl years_body years all_dates !! id
  = match years !! id with
    | Some y => Some y
    | None => year_of <$> kept_date all_dates id
    end.
Proof.
  revert years. induction all_dates as [|[date_id date] l IH]; intros years.
  - simpl. by destruct (years !! id).
  - simpl. rewrite IH. case_bool_decide as Hin; simpl.
    + destruct (Z.eqb_spec date_id id) as [->|Hne].
      * by destruct Hin as [y ->].
      * done.
    + assert (years !! date_id = None) as Hnone.
      { destruct (years !! date_id) eqn:E; [|done]. destruct Hin. eauto. }
      destruct (Z.eqb_spec date_id id) as [->|Hne].
      * by rewrite lookup_insert_eq, Hnone.
      * by rewrite lookup_insert_ne.
Qed.

Lemma reconcile_years_lookup (all_dates : list DateRow) (id : Z) :
  reconcile_years all_dates !! id = year_of <$> kept_date all_dates id.
Proof. unfold reconcile_years. by rewrite years_loop_lookup, lookup_empty. Qed.

Lemma year_of_empty (date : str) :
  date = [] \/ head date = Some 45%N -> year_of date = [].
Proof.
  intros [->|H]; [done|]. destruct date as [|c date]; [done|].
  injection H as ->. done.
Qed.

(** C10: [format_item] reads an empty author or year as a missing one, and
    an item whose kept date is empty or begins with "-" has the empty year
    and therefore a label without a year. *)
Theorem format_item_truthiness (title : str) (author year : option str) :
  format_item title (Some []) year = format_item title None year
  /\ format_item title author (Some []) = format_item title author None
  /\ (forall (all_dates : list DateRow) (id : Z) (date : str),
        kept_date all_dates id = Some date ->
        date = [] \/ head date = Some 45%N ->
        reconcile_years all_dates !! id = Some []
        /\ format_item title author (reconcile_years all_dates !! id)
           = if truthy author
             then FORMAT_ITEM_WITHOUT_YEAR (default [] author) title
             else FORMAT_ITEM_WITHOUT_AUTHOR_AND_YEAR title).
Proof.
  split; [done|]. split.
  - unfold format_item. simpl. by rewrite andb_false_r.
  - intros all_dates id date Hkept Hdate.
    rewrite reconcile_years_lookup, Hkept. simpl.
    rewrite (year_of_empty _ Hdate). split; [done|].
    unfold format_item. simpl. by rewrite andb_false_r.
Qed.

Lemma format_item_truthiness_witness :
  reconcile_years [(4, lit "-0044-03-15"); (4, lit "1999-01-01")] !! 4 = Some []
  /\ format_item (lit "De bello Gallico") (Some (lit "Caesar"))
       (reconcile_years [(4, lit "-0044-03-15"); (4, lit "1999-01-01")] !! 4)
     = lit "Caesar - De bello Gallico".
Proof.
  destruct (format_item_truthiness (lit "De bello Gallico")
              (Some (lit "Caesar")) None) as (_ & _ & H).
  apply (H [(4, lit "-0044-03-15"); (4, lit "1999-01-01")] 4
           (lit "-0044-03-15")).
  - reflexivity.
  - right. reflexivity.
Defined.

(** ** Shortening a path *)

Lemma len_app {A : Type} (l1 l2 : list A) : len (l1 ++ l2) = len l1 + len l2.
Proof. unfold len. rewrite length_app. lia. Qed.

Lemma slice_to_take {A : Type} (s : list A) (k : Z) :
  0 <= k <= len s ->
  slice_to s k = take (Z.to_nat k) s /\ len (slice_to s k) = k.
Proof.
  unfold slice_to, clamp_index, len. intros Hk.
  destruct (Z.ltb_spec k 0) as [?|_]; [lia|].
  split; [done|]. rewrite length_take. lia.
Qed.

Lemma slice_from_drop {A : Type} (s : list A) (k : Z) :
  1 <= k <= len s ->
  slice_from s (- k) = drop (length s - Z.to_nat k) s
  /\ len (slice_from s (- k)) = k.
Proof.
  unfold slice_from, clamp_index, len. intros Hk.
  destruct (Z.ltb_spec (- k) 0) as [_|?]; [|lia].
  replace (Z.to_nat (Z.max 0 (Z.of_nat (length s) + - k)))
    with (length s - Z.to_nat k)%nat by lia.
  split; [done|]. rewrite length_drop. lia.
Qed.

(** With the configured budget and fraction the product is 40.0, and
    [format_path] returns for every path. *)
Lemma format_path_configured (path : Path) :
  exists s, format_path path FORMAT_PATH_MAXLEN FORMAT_PATH_FULLPATH
              FORMAT_PATH_ENDING_FRACTION = Ok s.
Proof.
  unfold format_path.
  destruct (len _ <=? FORMAT_PATH_MAXLEN); [by eexists|].
  change (int_mul_float FORMAT_PATH_MAXLEN FORMAT_PATH_ENDING_FRACTION)
    with (Ok (S754_finite false 5629499534213120 (-47))).
  by eexists.
Qed.

Lemma format_path_within (path : Path) (maxlen : Z) (fullpath : bool)
    (ending_fraction : float) :
  let path_str := if fullpath then pathlib.to_str path
                  else pathlib.name path in
  len path_str <= maxlen ->
  format_path path maxlen fullpath ending_fraction = Ok path_str.
Proof.
  intros path_str Hlen. unfold format_path.
  replace (if negb fullpath then pathlib.name path else pathlib.to_str path)
    with path_str by (by destruct fullpath).
  by destruct (Z.leb_spec (len path_str) maxlen) as [_|?]; [|lia].
Qed.

Lemma format_path_beyond (path : Path) (maxlen : Z) (fullpath : bool)
    (ending_fraction : float) (x : float) (r : Z) :
  let path_str := if fullpath then pathlib.to_str path
                  else pathlib.name path in
  maxlen < len path_str ->
  int_mul_float maxlen ending_fraction = Ok x ->
  round x = Ok r ->
  1 <= r - 1 -> 0 <= maxlen - (r - 1) - 1 ->
  format_path path maxlen fullpath ending_fraction
  = Ok (take (Z.to_nat (maxlen - (r - 1) - 1)) path_str ++ [ellipsis]
          ++ drop (length path_str - Z.to_nat (r - 1)) path_str)
  /\ len (take (Z.to_nat (maxlen - (r - 1) - 1)) path_str)
     = maxlen - (r - 1) - 1
  /\ len (drop (length path_str - Z.to_nat (r - 1)) path_str) = r - 1.
Proof.
  intros path_str Hlen Hx Hr Hend Hstart. unfold format_path.
  replace (if negb fullpath then pathlib.name path else pathlib.to_str path)
    with path_str by (by destruct fullpath).
  destruct (Z.leb_spec (len path_str) maxlen) as [?|_]; [lia|].
  rewrite Hx. simpl. rewrite Hr. simpl.
  destruct (slice_to_take path_str (maxlen - (r - 1) - 1)) as [E3 E4];
    [lia|].
  destruct (slice_from_drop path_str (r - 1)) as [E1 E2]; [lia|].
  rewrite E3 in E4 |- *. rewrite E1 in E2 |- *.
  done.
Qed.

(** Where [ending_chars] is at least 1 and [starting_chars] is not
    negative, a string beyond the budget becomes its first
    [starting_chars] characters, the ellipsis and its last [ending_chars]
    characters, [maxlen] characters in all; a string within the budget is
    returned as it is; with [maxlen] 10 and the fraction 0.5 a name of 20
    characters keeps 5 and 4. *)
Lemma format_path_shortens
    (path : Path) (maxlen : Z) (fullpath : bool) (ending_fraction : float) :
  let path_str := if fullpath then pathlib.to_str path
                  else pathlib.name path in
  (len path_str <= maxlen ->
   format_path path maxlen fullpath ending_fraction = Ok path_str)
  /\ (forall (x : float) (r : Z),
        maxlen < len path_str ->
        int_mul_float maxlen ending_fraction = Ok x ->
        round x = Ok r ->
        let ending_chars := r - 1 in
        let starting_chars := maxlen - ending_chars - 1 in
        1 <= ending_chars -> 0 <= starting_chars ->
        let front := take (Z.to_nat starting_chars) path_str in
        let back := drop (length path_str - Z.to_nat ending_chars) path_str in
        format_path path maxlen fullpath ending_fraction
        = Ok (front ++ [ellipsis] ++ back)
        /\ len front = starting_chars
        /\ len back = ending_chars
        /\ len (front ++ [ellipsis] ++ back) = maxlen)
  /\ (len (pathlib.name path) = 20 ->
      format_path path 10 false float_half
      = Ok (take 5 (pathlib.name path) ++ [ellipsis]
              ++ drop 16 (pathlib.name path))).
Proof.
  intros path_str. split; [|split].
  - apply format_path_within.
  - intros x r Hlen Hx Hr ending_chars starting_chars Hend Hstart front back.
    destruct (format_path_beyond path maxlen fullpath ending_fraction x r
                Hlen Hx Hr Hend Hstart) as (Hout & Hfront & Hback).
    split; [done|]. split; [done|]. split; [done|].
    unfold front, back, starting_chars, ending_chars, path_str.
    rewrite !len_app, Hfront, Hback. unfold len. simpl. lia.
  - intros Hlen.
    destruct (format_path_beyond path 10 false float_half
                (S754_finite false 5629499534213120 (-50)) 5)
      as (Hout & _); try done; [simpl; lia|].
    rewrite Hout. simpl.
    replace (length (pathlib.name path)) with 20%nat
      by (unfold len in Hlen; lia).
    reflexivity.
Qed.

Lemma format_path_shortens_witness :
  let path := pathlib.of_str (lit "/x/abcdefghijklmnopqrst") in
  format_path path 10 false float_half
  = Ok (lit "abcde" ++ [ellipsis] ++ lit "qrst")
  /\ format_path path 80 false float_half = Ok (lit "abcdefghijklmnopqrst")
  /\ len (lit "abcde" ++ [ellipsis] ++ lit "qrst") = 10.
Proof.
  intros path.
  destruct (format_path_shortens path 10 false float_half)
    as (_ & Hbeyond & _).
  destruct (format_path_shortens path 80 false float_half)
    as (Hwithin & _ & _).
  destruct (Hbeyond (S754_finite false 5629499534213120 (-50)) 5)
    as (Hout & _ & _ & Hlen);
    [vm_compute; reflexivity | reflexivity | reflexivity
    | vm_compute; discriminate | vm_compute; discriminate |].
  split; [exact Hout|]. split; [|exact Hlen].
  apply Hwithin. vm_compute. discriminate.
Defined.

(** C8 on the code: when [round(maxlen * ending_fraction)] is 1,
    [ending_chars] is 0 and the slice [path_str[-0:]] is the whole string:
    the result is the first [maxlen - 1] characters, the ellipsis and then
    all of the original, [maxlen + len path_str] characters, where the
    docstring and the claim have [maxlen]. *)
Theorem format_path_exceeds_budget
    (path : Path) (maxlen : Z) (fullpath : bool) (ending_fraction : float)
    (x : float) :
  let path_str := if fullpath then pathlib.to_str path
                  else pathlib.name path in
  1 <= maxlen -> maxlen < len path_str ->
  int_mul_float maxlen ending_fraction = Ok x ->
  round x = Ok 1 ->
  let out := take (Z.to_nat (maxlen - 1)) path_str ++ [ellipsis]
               ++ path_str in
  format_path path maxlen fullpath ending_fraction = Ok out
  /\ len out = maxlen + len path_str
  /\ len out <> maxlen.
Proof.
  intros path_str Hmax Hlen Hx Hr out. unfold format_path.
  replace (if negb fullpath then pathlib.name path else pathlib.to_str path)
    with path_str by (by destruct fullpath).
  destruct (Z.leb_spec (len path_str) maxlen) as [?|_]; [lia|].
  rewrite Hx. simpl. rewrite Hr. simpl.
  destruct (slice_to_take path_str (maxlen - 1)) as [E1 E2]; [lia|].
  replace (maxlen - (1 - 1) - 1) with (maxlen - 1) by lia.
  change (slice_from path_str (- (1 - 1))) with path_str.
  assert (len out = maxlen + len path_str) as Hout.
  { unfold out. rewrite !len_app, <- E1, E2. unfold len. simpl. lia. }
  split; [by rewrite E1|]. split; [done|]. unfold len in *. lia.
Qed.

Lemma format_path_exceeds_budget_witness :
  format_path (pathlib.of_str (lit "abc")) 2 false float_half
  = Ok (lit "a" ++ [ellipsis] ++ lit "abc")
  /\ len (lit "a" ++ [ellipsis] ++ lit "abc") = 5.
Proof.
  destruct (format_path_exceeds_budget (pathlib.of_str (lit "abc")) 2 false
              float_half (S754_finite false 4503599627370496 (-52)))
    as (Hout & Hlen & _);
    [lia | unfold len; simpl; lia | vm_compute; reflexivity
    | vm_compute; reflexivity |].
  split; [exact Hout | exact Hlen].
Defined.

(** ** Traces *)

Lemma trace_bind {A B : Type} (P : event -> Prop) (m : prog A) (f : A -> prog B) :
  Forall P (trace m) -> (forall a, Forall P (trace (f a))) ->
  Forall P (trace (m ≫= f)).
Proof.
  intros Hm Hf. unfold mbind, prog_bind.
  destruct (outcome m); simpl; [|done].
  apply Forall_app. split; [done | apply Hf].
Qed.

Lemma trace_lift {A : Type} (P : event -> Prop) (r : result A) :
  Forall P (trace (lift r)).
Proof. constructor. Qed.

Lemma choose_file_no_viewer (w : world) (rofi_args : list str)
    (prompt_attachment : str) (files_to_open : list Path) :
  Forall (fun e => is_viewer_run e = false)
    (trace (choose_file w rofi_args prompt_attachment files_to_open)).
Proof.
  unfold choose_file. destruct (_ =? _)%nat.
  - apply trace_bind; [apply trace_lift | intros; constructor].
  - apply trace_bind; [apply trace_lift | intros files].
    apply trace_bind; [by repeat constructor | intros r].
    destruct r; try constructor.
    apply trace_bind; [apply trace_lift | intros; constructor].
Qed.

(** Up to the choice of the file the viewer is not run. *)
Lemma select_file_no_viewer (w : world) (r : rows)
    (zotero_path zotero_base_dir : Path) (list_only : bool)
    (rofi_args : list str) (prompt_paper prompt_attachment : str) :
  Forall (fun e => is_viewer_run e = false)
    (trace (select_file w r zotero_path zotero_base_dir list_only rofi_args
              prompt_paper prompt_attachment)).
Proof.
  unfold select_file.
  apply trace_bind; [apply trace_lift | intros [item_list_with_ids paths]].
  destruct list_only.
  - apply trace_bind; [by repeat constructor | intros; constructor].
  - apply trace_bind; [by repeat constructor | intros rep].
    destruct rep; try constructor.
    apply trace_bind; [apply trace_lift | intros files].
    apply choose_file_no_viewer.
Qed.

(** C9, as the code has it: when the chosen file is not on disk, [main]
    prints the message to stderr, shows it with [rofi -e], never runs the
    viewer, and returns; the exit status is 0. *)
Theorem missing_attachment_reported (w : world) (r : rows)
    (zotero_path zotero_base_dir : Path) (list_only : bool) (viewer : str)
    (rofi_args : list str) (prompt_paper prompt_attachment : str)
    (file_to_open : Path) :
  outcome (select_file w r zotero_path zotero_base_dir list_only rofi_args
             prompt_paper prompt_attachment) = Ok (Some file_to_open) ->
  path_exists w file_to_open = false ->
  let run := main_rows w r zotero_path zotero_base_dir list_only viewer
               rofi_args prompt_paper prompt_attachment in
  let msg := lit "Could not find file: " ++ pathlib.to_str file_to_open in
  trace run
  = trace (select_file w r zotero_path zotero_base_dir list_only rofi_args
             prompt_paper prompt_attachment)
    ++ [PrintedErr msg; RofiRun ([lit "rofi"; lit "-e"; msg] ++ rofi_args) None]
  /\ Forall (fun e => is_viewer_run e = false) (trace run)
  /\ outcome run = Ok tt
  /\ exit_status run = 0.
Proof.
  intros Hsel Hmissing run msg.
  assert (run = Prog
            (trace (select_file w r zotero_path zotero_base_dir list_only
                      rofi_args prompt_paper prompt_attachment)
             ++ [PrintedErr msg;
                 RofiRun ([lit "rofi"; lit "-e"; msg] ++ rofi_args) None])
            (Ok tt)) as ->.
  { unfold run, main_rows, mbind at 1, prog_bind at 1. rewrite Hsel.
    unfold open_or_report. rewrite Hmissing. reflexivity. }
  simpl. split; [done|]. split; [|done].
  apply Forall_app. split; [apply select_file_no_viewer|].
  by repeat constructor.
Qed.

Lemma missing_attachment_reported_witness :
  let run := main_rows sample.world_missing sample.rows_one
               sample.zotero_path sample.zotero_base_dir false
               (lit "xdg-open %u") [lit "-i"] (lit "paper")
               (lit "attachment") in
  Forall (fun e => is_viewer_run e = false) (trace run)
  /\ outcome run = Ok tt
  /\ exit_status run = 0.
Proof.
  apply (missing_attachment_reported sample.world_missing sample.rows_one
           sample.zotero_path sample.zotero_base_dir false (lit "xdg-open %u")
           [lit "-i"] (lit "paper") (lit "attachment")
           (pathlib.of_str (lit "/a.pdf"))).
  - vm_compute. reflexivity.
  - reflexivity.
Defined.

(** C9 as stated fails: the file of the one item is missing, the message
    is shown, and the status is 0 all the same. *)
Lemma missing_attachment_exit_status_cex :
  let run := main_rows sample.world_missing sample.rows_one
               sample.zotero_path sample.zotero_base_dir false
               (lit "xdg-open %u") [lit "-i"] (lit "paper")
               (lit "attachment") in
  outcome (select_file sample.world_missing sample.rows_one
             sample.zotero_path sample.zotero_base_dir false [lit "-i"]
             (lit "paper") (lit "attachment"))
  = Ok (Some (pathlib.of_str (lit "/a.pdf")))
  /\ path_exists sample.world_missing (pathlib.of_str (lit "/a.pdf")) = false
  /\ PrintedErr (lit "Could not find file: /a.pdf") ∈ trace run
  /\ ~ exit_status run <> 0.
Proof.
  split; [vm_compute; reflexivity|]. split; [reflexivity|]. split.
  - vm_compute. right. left.
  - intros H. apply H. vm_compute. reflexivity.
Qed.

(** ** The path lists *)

(** A row that is neither NULL nor skipped appends its resolved path to
    the list of its identifier. *)
Lemma paths_body_Some (zotero_base_dir zotero_path : Path)
    (keys : gmap Z str) (paths : gmap Z (list Path)) (path_id : Z)
    (path : str) (p : Path) :
  already_recorded paths path_id path = false ->
  resolve_path zotero_base_dir zotero_path keys path_id path = Ok p ->
  paths_body zotero_base_dir zotero_path keys paths (path_id, Some path)
  = Ok (<[path_id := default [] (paths !! path_id) ++ [p]]> paths).
Proof.
  intros Hrec Hp. unfold paths_body. rewrite Hrec, Hp. simpl. f_equal.
  case_bool_decide as Hin; simpl; [done|].
  rewrite lookup_insert_eq. simpl.
  assert (paths !! path_id = None) as ->.
  { destruct (paths !! path_id) eqn:E'; [|done]. destruct Hin. eauto. }
  simpl. apply insert_insert_eq.
Qed.

(** A row whose expression does not start with a bracket is always
    appended, also when its path is in the list already. *)
Lemma paths_body_appends (zotero_base_dir zotero_path : Path)
    (keys : gmap Z str) (paths : gmap Z (list Path)) (path_id : Z)
    (path : str) (p : Path) :
  head path <> Some 91%N ->
  resolve_path zotero_base_dir zotero_path keys path_id path = Ok p ->
  paths_body zotero_base_dir zotero_path keys paths (path_id, Some path)
  = Ok (<[path_id := default [] (paths !! path_id) ++ [p]]> paths).
Proof.
  intros Hhead Hp. apply paths_body_Some; [|done].
  destruct (already_recorded paths path_id path) eqn:E; [|done].
  by apply already_recorded_bracket in E.
Qed.

(** What one row does to [paths] when the body returns. *)
Lemma paths_body_cases (zotero_base_dir zotero_path : Path)
    (keys : gmap Z str) (paths paths' : gmap Z (list Path)) (row : PathRow) :
  paths_body zotero_base_dir zotero_path keys paths row = Ok paths' ->
  paths' = paths
  \/ exists (raw : str) (p : Path),
       row.2 = Some raw
       /\ resolve_path zotero_base_dir zotero_path keys row.1 raw = Ok p
       /\ paths' = <[row.1 := default [] (paths !! row.1) ++ [p]]> paths.
Proof.
  destruct row as [path_id [raw|]]; cbn [fst snd].
  - destruct (already_recorded paths path_id raw) eqn:Hrec.
    + unfold paths_body. rewrite Hrec. intros [= <-]. by left.
    + destruct (resolve_path zotero_base_dir zotero_path keys path_id raw)
        as [p|e] eqn:Hp.
      * rewrite (paths_body_Some _ _ _ _ _ _ p Hrec Hp). intros [= <-].
        right. by exists raw, p.
      * unfold paths_body. by rewrite Hrec, Hp.
  - intros [= <-]. by left.
Qed.

Lemma paths_body_extends (zotero_base_dir zotero_path : Path)
    (keys : gmap Z str) (paths paths' : gmap Z (list Path)) (row : PathRow)
    (id : Z) (l : list Path) :
  paths_body zotero_base_dir zotero_path keys paths row = Ok paths' ->
  paths !! id = Some l ->
  exists l', paths' !! id = Some (l ++ l').
Proof.
  intros Hbody Hl.
  destruct (paths_body_cases _ _ _ _ _ _ Hbody) as [->|(raw & p & _ & _ & ->)].
  - exists []. by rewrite app_nil_r.
  - destruct (decide (row.1 = id)) as [->|Hne].
    + exists [p]. by rewrite lookup_insert_eq, Hl.
    + exists []. by rewrite lookup_insert_ne, app_nil_r.
Qed.

Lemma paths_loop_extends (zotero_base_dir zotero_path : Path)
    (keys : gmap Z str) (all_paths : list PathRow)
    (paths paths' : gmap Z (list Path)) (id : Z) (l : list Path) :
  foldM (paths_body zotero_base_dir zotero_path keys) paths all_paths
  = Ok paths' ->
  paths !! id = Some l ->
  exists l', paths' !! id = Some (l ++ l').
Proof.
  revert paths l. induction all_paths as [|row rows IH]; intros paths l.
  - intros [= <-] Hl. exists []. by rewrite app_nil_r.
  - simpl.
    destruct (paths_body zotero_base_dir zotero_path keys paths row)
      as [paths1|e] eqn:Hbody; [|done].
    simpl. intros Hloop Hl.
    destruct (paths_body_extends _ _ _ _ _ _ _ _ Hbody Hl) as [l1 Hl1].
    destruct (IH _ _ Hloop Hl1) as [l2 Hl2].
    exists (l1 ++ l2). by rewrite app_assoc.
Qed.

(** The file names for the second picker always format. *)
Lemma mapM_format_path_configured (files_to_open : list Path) :
  exists files,
    mapM (fun p => format_path p FORMAT_PATH_MAXLEN FORMAT_PATH_FULLPATH
                     FORMAT_PATH_ENDING_FRACTION) files_to_open = Ok files
    /\ length files = length files_to_open.
Proof.
  induction files_to_open as [|p l (files & IH & Hlen)]; [by exists []|].
  destruct (format_path_configured p) as [s Hs].
  exists (s :: files). simpl. rewrite Hs, IH. simpl. by rewrite Hlen.
Qed.

Lemma sort_paths_sorted (l : list Path) :
  StronglySorted (not_after pathlib.ltb) (sort pathlib.ltb l).
Proof. apply sort_sorted; [apply path_ltb_asym | apply path_ltb_negtrans]. Qed.

Lemma select_file_selected (w : world) (r : rows)
    (zotero_path zotero_base_dir : Path) (rofi_args : list str)
    (prompt_paper prompt_attachment : str)
    (c : list (str * Z)) (paths : gmap Z (list Path)) (i : Z) :
  build_catalog r zotero_path zotero_base_dir = Ok (c, paths) ->
  rofi w ([lit "rofi"; lit "-dmenu"; lit "-format"; lit "i"] ++ rofi_args
            ++ [lit "-p"; prompt_paper]) (join newline c.*1) = Selected i ->
  select_file w r zotero_path zotero_base_dir false rofi_args prompt_paper
    prompt_attachment
  = match files_of_selection c paths i with
    | Raise e =>
        Prog [RofiRun ([lit "rofi"; lit "-dmenu"; lit "-format"; lit "i"]
                         ++ rofi_args ++ [lit "-p"; prompt_paper])
                (Some (join newline c.*1))] (Raise e)
    | Ok files_to_open =>
        let rest := choose_file w rofi_args prompt_attachment files_to_open in
        Prog (RofiRun ([lit "rofi"; lit "-dmenu"; lit "-format"; lit "i"]
                         ++ rofi_args ++ [lit "-p"; prompt_paper])
                (Some (join newline c.*1)) :: trace rest) (outcome rest)
    end.
Proof.
  intros Hc Hi. unfold select_file. rewrite Hc.
  unfold run_rofi, mbind, prog_bind, emit, lift, mret, prog_ret.
  cbn [outcome trace]. rewrite Hi. cbn [outcome trace].
  destruct (files_of_selection c paths i) as [files|e]; reflexivity.
Qed.

Lemma choose_file_menu (w : world) (rofi_args : list str)
    (prompt_attachment : str) (files_to_open : list Path) :
  length files_to_open <> 1%nat ->
  exists files : list str,
    mapM (fun p => format_path p FORMAT_PATH_MAXLEN FORMAT_PATH_FULLPATH
                     FORMAT_PATH_ENDING_FRACTION) files_to_open = Ok files
    /\ length files = length files_to_open
    /\ choose_file w rofi_args prompt_attachment files_to_open
       = Prog [RofiRun ([lit "rofi"; lit "-dmenu"; lit "-format"; lit "i"]
                          ++ rofi_args ++ [lit "-p"; prompt_attachment])
                 (Some (join newline files))]
           match rofi w ([lit "rofi"; lit "-dmenu"; lit "-format"; lit "i"]
                           ++ rofi_args ++ [lit "-p"; prompt_attachment])
                   (join newline files) with
           | NoSelection => Ok None
           | NotAnInteger => Raise ValueError
           | Selected j =>
               file_to_open ← getitem files_to_open j; Ok (Some file_to_open)
           end.
Proof.
  intros Hlen.
  destruct (mapM_format_path_configured files_to_open) as (files & Hf & Hl).
  exists files. split; [done|]. split; [done|].
  unfold choose_file. destruct (Nat.eqb_spec (length files_to_open) 1);
    [done|].
  rewrite Hf. unfold mbind at 1 2, prog_bind, lift, run_rofi. simpl.
  destruct (rofi w _ _) as [|j|]; [done| |done].
  by destruct (getitem files_to_open j).
Qed.

Lemma choose_file_single (w : world) (rofi_args : list str)
    (prompt_attachment : str) (p : Path) :
  choose_file w rofi_args prompt_attachment [p] = Prog [] (Ok (Some p)).
Proof. reflexivity. Qed.

Lemma files_of_selection_Ok (c : list (str * Z)) (paths : gmap Z (list Path))
    (i : Z) (item : str * Z) (l : list Path) :
  getitem c i = Ok item -> paths !! item.2 = Some l ->
  files_of_selection c paths i = Ok (sort pathlib.ltb l).
Proof.
  intros Hitem Hl. unfold files_of_selection. rewrite Hitem. simpl.
  unfold dict_getitem. by rewrite Hl.
Qed.

(** C5, as the code has it. (1) In [paths] a list only grows at its end:
    what is recorded for an identifier after some rows is a prefix of what
    is recorded after more rows, and a row adds its own resolved path.
    (2) On selection the list is sorted, not kept in that order.
    (3) The sorted list is the one whose names the second picker shows,
    line by line, and the one its answer indexes. (4) In [main]: when the
    first picker answers [i], entry [i] of the catalog has the recorded
    list [l] and [l] is not a single file, the second picker is run on the
    names of [sort l], and its answer [j] chooses entry [j] of [sort l]. *)
Theorem path_lists_appended_then_sorted
    (zotero_base_dir zotero_path : Path) (keys : gmap Z str) :
  (forall (rows1 rows2 : list PathRow) (paths1 paths2 : gmap Z (list Path))
          (id : Z) (l1 : list Path),
      reconcile_paths zotero_base_dir zotero_path keys rows1 = Ok paths1 ->
      reconcile_paths zotero_base_dir zotero_path keys (rows1 ++ rows2)
      = Ok paths2 ->
      paths1 !! id = Some l1 ->
      exists l2, paths2 !! id = Some (l1 ++ l2))
  /\ (forall (paths paths' : gmap Z (list Path)) (row : PathRow),
        paths_body zotero_base_dir zotero_path keys paths row = Ok paths' ->
        paths' = paths
        \/ exists (raw : str) (p : Path),
             row.2 = Some raw
             /\ resolve_path zotero_base_dir zotero_path keys row.1 raw = Ok p
             /\ paths' = <[row.1 := default [] (paths !! row.1) ++ [p]]> paths)
  /\ (forall (c : list (str * Z)) (paths : gmap Z (list Path)) (i : Z)
             (files_to_open : list Path),
        files_of_selection c paths i = Ok files_to_open ->
        exists (item : str * Z) (l : list Path),
          getitem c i = Ok item
          /\ paths !! item.2 = Some l
          /\ files_to_open = sort pathlib.ltb l
          /\ Permutation l files_to_open
          /\ StronglySorted (not_after pathlib.ltb) files_to_open)
  /\ (forall (w : world) (rofi_args : list str) (prompt_attachment : str)
             (files_to_open : list Path),
        length files_to_open <> 1%nat ->
        exists files : list str,
          mapM (fun p => format_path p FORMAT_PATH_MAXLEN FORMAT_PATH_FULLPATH
                           FORMAT_PATH_ENDING_FRACTION) files_to_open
          = Ok files
          /\ length files = length files_to_open
          /\ let rofi_command :=
               [lit "rofi"; lit "-dmenu"; lit "-format"; lit "i"] ++ rofi_args
                 ++ [lit "-p"; prompt_attachment] in
             let run := choose_file w rofi_args prompt_attachment
                          files_to_open in
             trace run = [RofiRun rofi_command (Some (join newline files))]
             /\ forall j : Z,
                  rofi w rofi_command (join newline files) = Selected j ->
                  outcome run
                  = (file_to_open ← getitem files_to_open j;
                     Ok (Some file_to_open)))
  /\ (forall (w : world) (r : rows) (rofi_args : list str)
             (prompt_paper prompt_attachment : str)
             (c : list (str * Z)) (paths : gmap Z (list Path)) (i : Z)
             (item : str * Z) (l : list Path),
        let paper_command :=
          [lit "rofi"; lit "-dmenu"; lit "-format"; lit "i"] ++ rofi_args
            ++ [lit "-p"; prompt_paper] in
        let attachment_command :=
          [lit "rofi"; lit "-dmenu"; lit "-format"; lit "i"] ++ rofi_args
            ++ [lit "-p"; prompt_attachment] in
        let run := select_file w r zotero_path zotero_base_dir false rofi_args
                     prompt_paper prompt_attachment in
        build_catalog r zotero_path zotero_base_dir = Ok (c, paths) ->
        rofi w paper_command (join newline c.*1) = Selected i ->
        getitem c i = Ok item ->
        paths !! item.2 = Some l ->
        length l <> 1%nat ->
        exists files : list str,
          mapM (fun p => format_path p FORMAT_PATH_MAXLEN FORMAT_PATH_FULLPATH
                           FORMAT_PATH_ENDING_FRACTION) (sort pathlib.ltb l)
          = Ok files
          /\ trace run
             = [RofiRun paper_command (Some (join newline c.*1));
                RofiRun attachment_command (Some (join newline files))]
          /\ forall j : Z,
               rofi w attachment_command (join newline files) = Selected j ->
               outcome run
               = (file_to_open ← getitem (sort pathlib.ltb l) j;
                  Ok (Some file_to_open))).
Proof.
  split; [|split; [|split; [|split]]].
  - intros rows1 rows2 paths1 paths2 id l1 H1 H2 Hl1.
    unfold reconcile_paths in *. rewrite foldM_app, H1 in H2. simpl in H2.
    by eapply paths_loop_extends.
  - apply paths_body_cases.
  - intros c paths i files_to_open. unfold files_of_selection.
    destruct (getitem c i) as [item|e]; [|done]. simpl.
    unfold dict_getitem. destruct (paths !! item.2) as [l|] eqn:Hl; [|done].
    simpl. intros [= <-]. exists item, l.
    split; [done|]. split; [done|]. split; [done|].
    split; [apply sort_perm | apply sort_paths_sorted].
  - intros w rofi_args prompt_attachment files_to_open Hlen.
    destruct (choose_file_menu w rofi_args prompt_attachment files_to_open
                Hlen) as (files & Hf & Hl & Hrun).
    exists files. split; [done|]. split; [done|]. cbv zeta. rewrite Hrun.
    split; [done|]. intros j Hj. cbn [outcome]. by rewrite Hj.
  - intros w r rofi_args prompt_paper prompt_attachment c paths i item l
      paper_command attachment_command run Hc Hi Hitem Hl Hlen.
    assert (length (sort pathlib.ltb l) <> 1%nat) as Hlen'.
    { by rewrite <- (Permutation_length (sort_perm pathlib.ltb l)). }
    destruct (choose_file_menu w rofi_args prompt_attachment
                (sort pathlib.ltb l) Hlen') as (files & Hf & _ & Hrun).
    exists files. split; [done|]. unfold run.
    rewrite (select_file_selected w r zotero_path zotero_base_dir rofi_args
               prompt_paper prompt_attachment c paths i Hc Hi).
    rewrite (files_of_selection_Ok c paths i item l Hitem Hl).
    cbv zeta. rewrite Hrun. cbn [trace outcome].
    split; [done|]. intros j Hj. fold attachment_command. by rewrite Hj.
Qed.

Lemma path_lists_appended_then_sorted_witness :
  let b := pathlib.of_str (lit "/b.pdf") in
  let a := pathlib.of_str (lit "/a.pdf") in
  let run := select_file (sample_picker.picks (Selected 0) (Selected 1))
               sample.rows_two_files sample.zotero_path sample.zotero_base_dir
               false [] (lit "paper") (lit "attachment") in
  (exists l2,
      ({[1 := [b; a]]} : gmap Z (list Path)) !! 1 = Some ([b] ++ l2))
  /\ (exists (item : str * Z) (l : list Path),
        getitem [(lit "Smith - T", 1)] 0 = Ok item
        /\ ({[1 := [b; a]]} : gmap Z (list Path)) !! item.2 = Some l
        /\ [a; b] = sort pathlib.ltb l
        /\ Permutation l [a; b]
        /\ StronglySorted (not_after pathlib.ltb) [a; b])
  /\ outcome (choose_file sample.world_missing [] (lit "attachment") [a; b])
     = Ok (Some a)
  /\ (exists files : list str,
        mapM (fun p => format_path p FORMAT_PATH_MAXLEN FORMAT_PATH_FULLPATH
                         FORMAT_PATH_ENDING_FRACTION) (sort pathlib.ltb [b; a])
        = Ok files
        /\ trace run
           = [RofiRun ([lit "rofi"; lit "-dmenu"; lit "-format"; lit "i"]
                         ++ [] ++ [lit "-p"; lit "paper"])
                (Some (join newline [(lit "Smith - T", 1)].*1));
              RofiRun ([lit "rofi"; lit "-dmenu"; lit "-format"; lit "i"]
                         ++ [] ++ [lit "-p"; lit "attachment"])
                (Some (join newline files))]
        /\ outcome run
           = (file_to_open ← getitem (sort pathlib.ltb [b; a]) 1;
              Ok (Some file_to_open))).
Proof.
  intros b a run.
  destruct (path_lists_appended_then_sorted sample.zotero_base_dir
              sample.zotero_path ∅)
    as (Happend & _ & Hsorted & Hchoose & Hmain).
  split; [|split; [|split]].
  - apply (Happend [(1, Some (lit "/b.pdf"))] [(1, Some (lit "/a.pdf"))]
             {[1 := [b]]} {[1 := [b; a]]} 1 [b]).
    + vm_compute. reflexivity.
    + vm_compute. reflexivity.
    + reflexivity.
  - apply (Hsorted [(lit "Smith - T", 1)] {[1 := [b; a]]} 0 [a; b]).
    vm_compute. reflexivity.
  - destruct (Hchoose sample.world_missing [] (lit "attachment") [a; b])
      as (files & _ & _ & _ & Hout); [vm_compute; discriminate|].
    apply (Hout 0). reflexivity.
  - destruct (Hmain (sample_picker.picks (Selected 0) (Selected 1))
                sample.rows_two_files [] (lit "paper") (lit "attachment")
                [(lit "Smith - T", 1)] {[1 := [b; a]]} 0 (lit "Smith - T", 1)
                [b; a])
      as (files & Hf & Htrace & Hout);
      [vm_compute; reflexivity | reflexivity | reflexivity | reflexivity
      | vm_compute; discriminate |].
    exists files. split; [exact Hf|]. split; [exact Htrace|].
    apply Hout. reflexivity.
Defined.

(** C5 as stated fails. The item's paths were recorded as b.pdf, a.pdf; the
    second picker is shown a.pdf, b.pdf, and its answer 0 chooses a.pdf,
    where entry 0 of the recorded list is b.pdf. *)
Lemma paths_presented_sorted_cex :
  let b := pathlib.of_str (lit "/b.pdf") in
  let a := pathlib.of_str (lit "/a.pdf") in
  let run := select_file (sample_picker.picks (Selected 0) (Selected 0))
               sample.rows_two_files sample.zotero_path sample.zotero_base_dir
               false [] (lit "paper") (lit "attachment") in
  exists (c : list (str * Z)) (paths : gmap Z (list Path)),
    build_catalog sample.rows_two_files sample.zotero_path
      sample.zotero_base_dir = Ok (c, paths)
    /\ getitem c 0 = Ok (lit "Smith - T", 1)
    /\ paths !! 1 = Some [b; a]
    /\ trace run
       = [RofiRun [lit "rofi"; lit "-dmenu"; lit "-format"; lit "i";
                   lit "-p"; lit "paper"] (Some (lit "Smith - T"));
          RofiRun [lit "rofi"; lit "-dmenu"; lit "-format"; lit "i";
                   lit "-p"; lit "attachment"]
            (Some (lit "a.pdf" ++ newline ++ lit "b.pdf"))]
    /\ outcome run = Ok (Some a)
    /\ getitem [b; a] 0 = Ok b
    /\ a <> b.
Proof.
  intros b a run. exists [(lit "Smith - T", 1)], {[1 := [b; a]]}.
  split; [vm_compute; reflexivity|]. split; [reflexivity|].
  split; [reflexivity|]. split; [vm_compute; reflexivity|].
  split; [vm_compute; reflexivity|]. split; [reflexivity|].
  vm_compute. discriminate.
Qed.

(** ** Which items the catalog holds *)

(** Once a name is in the running list, the author loop does not raise. *)
Lemma authors_body_Ok (st : author_state) (row : AuthorRow) :
  as_author_list st <> [] \/ row.1 = as_id st ->
  exists st', authors_body st row = Ok st' /\ as_author_list st' <> [].
Proof.
  destruct row as [author_id author]. unfold authors_body. simpl.
  intros H. destruct (Z.eqb_spec author_id (as_id st)) as [_|Hne]; simpl.
  - eexists. split; [done|]. by destruct (as_author_list st).
  - destruct H as [H|H]; [|done].
    rewrite (format_authors_template _ H). simpl. by eexists.
Qed.

Lemma authors_fold_Ok (st : author_state) (l : list AuthorRow) :
  as_author_list st <> [] -> exists st', foldM authors_body st l = Ok st'.
Proof.
  revert st. induction l as [|row l IH]; intros st H; [by eexists|].
  destruct (authors_body_Ok st row) as (st1 & E & H1); [by left|].
  simpl. rewrite E. simpl. by apply IH.
Qed.

Lemma reconcile_authors_Ok (all_authors : list AuthorRow) :
  all_authors <> [] -> exists authors, reconcile_authors all_authors = Ok authors.
Proof.
  destruct all_authors as [|row0 l]; [done|]. intros _.
  unfold reconcile_authors, authors_loop, getitem. simpl.
  destruct (authors_body_Ok (mkAuthorState row0.1 [] ∅) row0) as (st1 & E & H1);
    [by right|].
  rewrite E. simpl. destruct (authors_fold_Ok st1 l H1) as [st' ->].
  by eexists.
Qed.

(** [titles] and [keys] hold the identifiers of the title rows. *)
Lemma titles_loop_ids (st : list (Z * str) * gmap Z str) (l : list TitleRow) :
  (forall id, id ∈ st.1.*1 <-> is_Some (st.2 !! id)) ->
  forall id,
    (id ∈ (foldl titles_body st l).1.*1 <-> id ∈ st.1.*1 \/ id ∈ l.*1.*1)
    /\ (id ∈ (foldl titles_body st l).1.*1
        <-> is_Some ((foldl titles_body st l).2 !! id)).
Proof.
  revert st. induction l as [|[[title_id title] key] l IH];
    intros [titles keys] Hinv id.
  - simpl. split; [|apply Hinv]. rewrite elem_of_nil. tauto.
  - cbn [foldl]. destruct (IH (titles_body (titles, keys) (title_id, title, key)))
      with (id := id) as [IH1 IH2].
    + clear id. intros id. unfold titles_body. case_bool_decide as Hin; simpl.
      * apply Hinv.
      * rewrite fmap_app, elem_of_app. simpl. rewrite list_elem_of_singleton.
        destruct (decide (title_id = id)) as [->|Hne].
        -- rewrite lookup_insert_eq. split; [by eauto | by right].
        -- rewrite lookup_insert_ne by done.
           rewrite <- (Hinv id). simpl. split; [|by left].
           by intros [? | ?].
    + split; [|done]. rewrite IH1. simpl. rewrite elem_of_cons.
      unfold titles_body. case_bool_decide as Hin; simpl.
      * split; [tauto|]. intros [? |[->| ?]]; tauto.
      * rewrite fmap_app, elem_of_app. simpl. rewrite list_elem_of_singleton.
        split; [intros [[? | ?]| ?] | intros [? |[? | ?]]]; auto.
Qed.

Lemma reconcile_titles_ids (all_titles : list TitleRow) (id : Z) :
  (id ∈ (reconcile_titles all_titles).1.*1 <-> id ∈ all_titles.*1.*1)
  /\ (is_Some ((reconcile_titles all_titles).2 !! id) <-> id ∈ all_titles.*1.*1).
Proof.
  destruct (titles_loop_ids ([], ∅) all_titles) with (id := id) as [H1 H2].
  - intros i. simpl. rewrite elem_of_nil, lookup_empty.
    split; [done | by intros [? ?]].
  - fold (reconcile_titles all_titles) in H1, H2. simpl in H1.
    rewrite elem_of_nil in H1. rewrite <- H2. tauto.
Qed.

(** With the key at hand the resolution returns. *)
Lemma resolve_path_Ok (zotero_base_dir zotero_path : Path)
    (keys : gmap Z str) (path_id : Z) (path : str) :
  is_Some (keys !! path_id) ->
  exists p, resolve_path zotero_base_dir zotero_path keys path_id path = Ok p.
Proof.
  intros [key Hkey]. unfold resolve_path, dict_getitem. rewrite Hkey.
  destruct (startswith path (lit "attachments:")); [by eexists|].
  destruct (startswith path (lit "storage:")); by eexists.
Qed.

Lemma already_recorded_Some (paths : gmap Z (list Path)) (path_id : Z)
    (path : str) :
  already_recorded paths path_id path = true -> is_Some (paths !! path_id).
Proof. unfold already_recorded. destruct (paths !! path_id); [eauto | done]. Qed.

(** When every row with a path has a key, the path loop returns, and an
    identifier has a list exactly when one of its rows has a path. *)
Lemma paths_loop_Ok (zotero_base_dir zotero_path : Path) (keys : gmap Z str)
    (all_paths : list PathRow) (paths : gmap Z (list Path)) :
  (forall id raw, (id, Some raw) ∈ all_paths -> is_Some (keys !! id)) ->
  exists paths',
    foldM (paths_body zotero_base_dir zotero_path keys) paths all_paths
    = Ok paths'
    /\ forall id,
         is_Some (paths' !! id)
         <-> is_Some (paths !! id) \/ exists raw, (id, Some raw) ∈ all_paths.
Proof.
  revert paths. induction all_paths as [|[path_id [raw|]] l IH];
    intros paths Hkeys.
  - exists paths. split; [done|]. intros id. split; [by left|].
    intros [? |[raw H]]; [done|]. by apply elem_of_nil in H.
  - assert (exists paths1,
               paths_body zotero_base_dir zotero_path keys paths
                 (path_id, Some raw) = Ok paths1
               /\ forall id, is_Some (paths1 !! id)
                             <-> is_Some (paths !! id) \/ id = path_id)
      as (paths1 & Hbody & H1).
    { destruct (already_recorded paths path_id raw) eqn:Hrec.
      - exists paths. split; [unfold paths_body; by rewrite Hrec|].
        intros id. split; [by left|]. intros [? | ->]; [done|].
        by eapply already_recorded_Some.
      - destruct (resolve_path_Ok zotero_base_dir zotero_path keys path_id raw)
          as [p Hp]; [apply (Hkeys path_id raw); by left|].
        eexists. split; [by apply paths_body_Some|].
        intros id. rewrite lookup_insert_is_Some. split.
        + intros [->|[_ ?]]; [by right | by left].
        + destruct (decide (path_id = id)) as [->|Hne]; [by left|].
          intros [? | ->]; [by right | done]. }
    destruct (IH paths1) as (paths' & Hloop & H');
      [intros id r Hin; apply (Hkeys id r); by right|].
    exists paths'. cbn [foldM]. rewrite Hbody. split; [done|].
    intros id. rewrite H', H1. split.
    + intros [[? | ->]|[r Hr]]; [by left| |].
      * right. exists raw. by left.
      * right. exists r. by right.
    + intros [? |[r Hr]]; [by left; left|].
      apply elem_of_cons in Hr as [[= -> ->]|Hr]; [by left; right|].
      right. by exists r.
  - destruct (IH paths) as (paths' & Hloop & H');
      [intros id r Hin; apply (Hkeys id r); by right|].
    exists paths'. split; [done|]. intros id. rewrite H'. split.
    + intros [? |[r Hr]]; [by left|]. right. exists r. by right.
    + intros [? |[r Hr]]; [by left|].
      apply elem_of_cons in Hr as [[=]|Hr]. right. by exists r.
Qed.

(** The title query and the path query read the same rows of the join. *)
Lemma query_paths_of_title (db : sqlite.database) (id : Z) :
  id ∈ (sqlite._QUERY_TITLES db).*1.*1 ->
  exists j,
    j ∈ sqlite.from_attachments db
    /\ sqlite.where_title_pdf j = true
    /\ sqlite.items_itemID (sqlite.j_parentInfo j) = id
    /\ (id, sqlite.ia_path (sqlite.j_itemAttachments j))
       ∈ sqlite._QUERY_PATHS db.
Proof.
  unfold sqlite._QUERY_TITLES, sqlite._QUERY_PATHS.
  rewrite <- !list_fmap_compose. intros H.
  apply list_elem_of_fmap in H as (j & -> & Hj).
  exists j. pose proof Hj as Hj'. apply list_elem_of_filter in Hj' as [Hw Hin].
  split; [done|]. split; [done|]. split; [done|].
  apply list_elem_of_fmap. by exists j.
Qed.

Lemma query_title_of_path (db : sqlite.database) (id : Z) (path : option str) :
  (id, path) ∈ sqlite._QUERY_PATHS db -> id ∈ (sqlite._QUERY_TITLES db).*1.*1.
Proof.
  unfold sqlite._QUERY_TITLES, sqlite._QUERY_PATHS.
  rewrite <- !list_fmap_compose. intros H.
  apply list_elem_of_fmap in H as (j & [= -> ->] & Hj).
  apply list_elem_of_fmap. by exists j.
Qed.

(** The list of an identifier in [paths] is never empty. *)
Lemma paths_loop_nonempty (zotero_base_dir zotero_path : Path)
    (keys : gmap Z str) (all_paths : list PathRow)
    (paths paths' : gmap Z (list Path)) :
  foldM (paths_body zotero_base_dir zotero_path keys) paths all_paths
  = Ok paths' ->
  (forall id l, paths !! id = Some l -> l <> []) ->
  forall id l, paths' !! id = Some l -> l <> [].
Proof.
  revert paths. induction all_paths as [|row rows IH]; intros paths.
  - by intros [= <-].
  - cbn [foldM].
    destruct (paths_body zotero_base_dir zotero_path keys paths row)
      as [paths1|e] eqn:Hbody; [|done].
    intros Hloop Hne. apply (IH paths1 Hloop).
    destruct (paths_body_cases _ _ _ _ _ _ Hbody)
      as [->|(raw & p & _ & _ & ->)]; [done|].
    intros id l. destruct (decide (row.1 = id)) as [->|Hid].
    + rewrite lookup_insert_eq. intros [= <-] Habs.
      by apply app_eq_nil in Habs as [_ ?].
    + rewrite lookup_insert_ne by done. apply Hne.
Qed.

(** C6, as the code has it: when there is an author row, the catalog is
    built and holds the identifiers of the title map; each of its items
    has a row of the title and path join that passed the PDF or DJVU
    filter, hence a path row, whose path may be NULL; and when one of the
    item's path rows has a path, looking up its path list succeeds with a
    list that is not empty. *)
Theorem catalog_items_and_path_rows
    (db : sqlite.database) (zotero_path zotero_base_dir : Path) :
  sqlite._QUERY_AUTHORS db <> [] ->
  exists (c : list (str * Z)) (paths : gmap Z (list Path)),
    build_catalog (get_item_info db) zotero_path zotero_base_dir = Ok (c, paths)
    /\ Permutation (reconcile_titles (sqlite._QUERY_TITLES db)).1.*1 c.*2
    /\ forall item : str * Z,
         item ∈ c ->
         (exists j,
             j ∈ sqlite.from_attachments db
             /\ sqlite.where_title_pdf j = true
             /\ sqlite.items_itemID (sqlite.j_parentInfo j) = item.2
             /\ (item.2, sqlite.ia_path (sqlite.j_itemAttachments j))
                ∈ sqlite._QUERY_PATHS db)
         /\ ((exists raw, (item.2, Some raw) ∈ sqlite._QUERY_PATHS db) ->
             exists l, dict_getitem paths item.2 = Ok l /\ l <> []).
Proof.
  intros Hauthors.
  destruct (reconcile_authors_Ok _ Hauthors) as [authors Ha].
  destruct (paths_loop_Ok zotero_base_dir zotero_path
              (reconcile_titles (sqlite._QUERY_TITLES db)).2
              (sqlite._QUERY_PATHS db) ∅) as (paths & Hp & Hdom).
  { intros id raw Hin. apply (proj2 (proj2 (reconcile_titles_ids _ _))).
    by eapply query_title_of_path. }
  exists (sort_items
            (build_items (reconcile_titles (sqlite._QUERY_TITLES db)).1 authors
               (reconcile_years (sqlite._QUERY_DATES db)))), paths.
  split; [|split].
  - unfold build_catalog, get_item_info. simpl. rewrite Ha. simpl.
    destruct (reconcile_titles (sqlite._QUERY_TITLES db)) as [titles keys].
    unfold reconcile_paths. simpl in Hp |- *. by rewrite Hp.
  - unfold sort_items. rewrite <- sort_perm. by rewrite build_items_ids.
  - intros item Hitem. split.
    + assert (item.2 ∈ (reconcile_titles (sqlite._QUERY_TITLES db)).1.*1)
        as Hin.
      { rewrite <- (build_items_ids _ authors
                      (reconcile_years (sqlite._QUERY_DATES db))).
        apply list_elem_of_fmap. exists item. split; [done|].
        unfold sort_items in Hitem. by rewrite <- sort_perm in Hitem. }
      apply query_paths_of_title.
      by apply (proj1 (proj1 (reconcile_titles_ids _ _))).
    + intros Hraw. destruct (proj2 (Hdom item.2) (or_intror Hraw)) as [l Hl].
      exists l. unfold dict_getitem. rewrite Hl. split; [done|].
      by eapply (paths_loop_nonempty _ _ _ _ ∅ paths Hp).
Qed.

Lemma catalog_items_and_path_rows_witness :
  sqlite._QUERY_AUTHORS sample.db_with_path <> []
  /\ exists (c : list (str * Z)) (paths : gmap Z (list Path)),
       build_catalog (get_item_info sample.db_with_path) sample.zotero_path
         sample.zotero_base_dir = Ok (c, paths).
Proof.
  assert (sqlite._QUERY_AUTHORS sample.db_with_path <> []) as H
    by (vm_compute; discriminate).
  split; [exact H|].
  destruct (catalog_items_and_path_rows sample.db_with_path sample.zotero_path
              sample.zotero_base_dir H) as (c & paths & Hc & _).
  by exists c, paths.
Defined.

(** C6 as stated fails. Item 1 is in the catalog with a PDF attachment
    whose path is NULL: it has no path row with a path, [paths] has no
    entry for it, and choosing it raises [KeyError]. Item 3 is in the
    author map and item 4 in the year map, and neither has a path row. *)
Lemma catalog_item_without_path_cex :
  let r := get_item_info sample.db_null_path in
  exists (c : list (str * Z)) (paths : gmap Z (list Path))
         (authors : gmap Z str),
    build_catalog r sample.zotero_path sample.zotero_base_dir = Ok (c, paths)
    /\ (lit "Unknown - Paper", 1) ∈ c
    /\ all_paths r = [(1, None)]
    /\ paths !! 1 = None
    /\ outcome (main sample.world_missing sample.db_null_path
                  sample.zotero_path sample.zotero_base_dir false
                  (lit "xdg-open %u") [] (lit "paper") (lit "attachment"))
       = Raise KeyError
    /\ ~ (forall item : str * Z,
            item ∈ c -> exists l, dict_getitem paths item.2 = Ok l)
    /\ reconcile_authors (all_authors r) = Ok authors
    /\ is_Some (authors !! 3)
    /\ is_Some (reconcile_years (all_dates r) !! 4).
Proof.
  exists [(lit "Unknown - Paper", 1)], ∅, {[3 := lit "Smith"]}.
  split; [vm_compute; reflexivity|]. split; [by left|].
  split; [vm_compute; reflexivity|]. split; [reflexivity|].
  split; [vm_compute; reflexivity|]. split.
  { intros H. destruct (H (lit "Unknown - Paper", 1)) as [l Hl]; [by left|].
    discriminate Hl. }
  split; [vm_compute; reflexivity|].
  split; [by exists (lit "Smith")|]. exists (lit "2020"). vm_compute. reflexivity.
Qed.

(** * Further properties of the code *)

(** ** The label formatters *)

(** X1: every label is the author part, the year part and " - " with the
    title: the author or "Unknown", then the year in parentheses or
    nothing. *)
Theorem format_item_shape (title : str) (author year : option str) :
  format_item title author year
  = label_author author ++ label_year year ++ lit " - " ++ title.
Proof.
  unfold format_item, label_author, label_year,
    FORMAT_ITEM, FORMAT_ITEM_WITHOUT_YEAR, FORMAT_ITEM_WITHOUT_AUTHOR,
    FORMAT_ITEM_WITHOUT_AUTHOR_AND_YEAR.
  destruct (truthy author), (truthy year); simpl; try reflexivity.
  - by rewrite <- !app_assoc.
  - rewrite <- !app_assoc. reflexivity.
Qed.

(** ** First row wins *)

Lemma titles_inv_empty : titles_inv ([], ∅).
Proof.
  split; [constructor|]. intros id. simpl. rewrite elem_of_nil.
  split; [done|]. intros [x Hx]. by rewrite lookup_empty in Hx.
Qed.

Lemma titles_body_inv (st : list (Z * str) * gmap Z str) (row : TitleRow) :
  titles_inv st -> titles_inv (titles_body st row).
Proof.
  destruct st as [titles keys], row as [[title_id title] key].
  intros [Hnd Hdom]. unfold titles_body. case_bool_decide as Hin; [done|].
  split; simpl.
  - rewrite fmap_app. apply NoDup_app. split; [done|]. split.
    + intros x Hx Hx'. apply list_elem_of_singleton in Hx'. by subst.
    + apply NoDup_singleton.
  - intros id. rewrite fmap_app, elem_of_app. simpl.
    rewrite list_elem_of_singleton, lookup_insert_is_Some.
    specialize (Hdom id). simpl in Hdom.
    destruct (decide (title_id = id)) as [->|Hne]; [by intuition|].
    split.
    + intros [H|H]; [right; split; [done | by apply Hdom] | by subst].
    + intros [H|[_ H]]; [by subst | left; by apply Hdom].
Qed.

Lemma titles_loop_kept (st : list (Z * str) * gmap Z str) (l : list TitleRow)
    (id : Z) :
  titles_inv st ->
  (forall title,
      (id, title) ∈ (foldl titles_body st l).1
      <-> (id, title) ∈ st.1
          \/ ((id ∉ st.1.*1)
              /\ exists key, kept_title l id = Some (title, key)))
  /\ ((foldl titles_body st l).2 !! id
      = match st.2 !! id with
        | Some key => Some key
        | None => snd <$> kept_title l id
        end).
Proof.
  revert st. induction l as [|[[title_id title0] key0] l IH]; intros st Hinv.
  - simpl. split.
    + intros title. split; [by left|]. by intros [H|[_ [key H]]].
    + by destruct (st.2 !! id).
  - cbn [foldl]. pose proof (titles_body_inv st (title_id, title0, key0) Hinv)
      as Hinv'.
    destruct (IH _ Hinv') as [IH1 IH2]. clear IH.
    destruct st as [titles keys]. destruct Hinv as [Hnd Hdom].
    simpl in Hdom. unfold titles_body in *.
    case_bool_decide as Hin; simpl in *.
    + (* the identifier of the row is there already *)
      split.
      * intros title. rewrite IH1. destruct (Z.eqb_spec title_id id) as [->|Hne];
          [|done].
        split; (intros [H|[H _]]; [by left | done]).
      * rewrite IH2. destruct (Z.eqb_spec title_id id) as [->|Hne]; [|done].
        apply Hdom in Hin as [k ->]. done.
    + (* a new identifier *)
      assert (keys !! title_id = None) as Hnone.
      { destruct (keys !! title_id) eqn:E; [|done].
        destruct Hin. apply Hdom. eauto. }
      split.
      * intros title. rewrite IH1, fmap_app, elem_of_app, not_elem_of_app.
        simpl. rewrite !list_elem_of_singleton.
        destruct (Z.eqb_spec title_id id) as [->|Hne].
        -- split.
           ++ intros [[H|[= ->]]|[[_ H] _]]; [by left| |done].
              right. split; [done|]. by exists key0.
           ++ intros [H|[_ [key [= -> ->]]]]; [by left; left|]. left. by right.
        -- split.
           ++ intros [[H|[= ? ?]]|[[H _] Hk]]; [by left|done|by right].
           ++ intros [H|[H Hk]]; [by left; left|]. right.
              split; [|done]. split; [done|]. by intros ->.
      * rewrite IH2. destruct (Z.eqb_spec title_id id) as [->|Hne].
        -- by rewrite lookup_insert_eq, Hnone.
        -- by rewrite lookup_insert_ne.
Qed.

Lemma reconcile_titles_kept (all_titles : list TitleRow) (id : Z) :
  (forall title : str,
      (id, title) ∈ (reconcile_titles all_titles).1
      <-> exists key, kept_title all_titles id = Some (title, key))
  /\ (reconcile_titles all_titles).2 !! id = snd <$> kept_title all_titles id.
Proof.
  destruct (titles_loop_kept ([], ∅) all_titles id titles_inv_empty)
    as [H1 H2].
  split.
  - intros title. unfold reconcile_titles. rewrite H1. simpl. split.
    + intros [H|[_ H]]; [by apply elem_of_nil in H | done].
    + intros H. right. split; [apply not_elem_of_nil | done].
  - unfold reconcile_titles. rewrite H2. simpl. by rewrite lookup_empty.
Qed.

(** X2: of the title rows the first one of each identifier is kept: its
    title is the one in [titles] and its key the one in [keys]; an
    identifier without a row is in neither; a second row of an identifier
    changes nothing. *)
Theorem reconcile_titles_first_row (all_titles : list TitleRow) (id : Z) :
  (forall title : str,
      (id, title) ∈ (reconcile_titles all_titles).1
      <-> exists key, kept_title all_titles id = Some (title, key))
  /\ (reconcile_titles all_titles).2 !! id = snd <$> kept_title all_titles id
  /\ (forall (title key title' key' : str) (rest : list TitleRow),
        (reconcile_titles ((id, title, key) :: (id, title', key') :: rest)).2
          !! id = Some key
        /\ (id, title)
           ∈ (reconcile_titles ((id, title, key) :: (id, title', key') :: rest)).1).
Proof.
  split; [apply reconcile_titles_kept|]. split; [apply reconcile_titles_kept|].
  intros title key title' key' rest. split.
  - rewrite (proj2 (reconcile_titles_kept _ _)). simpl. by rewrite Z.eqb_refl.
  - apply (proj1 (reconcile_titles_kept _ _)). exists key. simpl.
    by rewrite Z.eqb_refl.
Qed.

(** The first field of a split is the text before the first separator. *)
Lemma split_head (sep : N) (s : str) :
  exists (first : str) (fields : list str),
    split sep s = first :: fields
    /\ (sep ∉ first)
    /\ exists rest, s = first ++ rest /\ (rest = [] \/ head rest = Some sep).
Proof.
  induction s as [|c s (first & fields & E & Hnot & rest & Hs & Hrest)].
  - exists [], []. split; [done|]. split; [apply not_elem_of_nil|].
    exists []. by split; [|left].
  - simpl. destruct (N.eqb_spec c sep) as [->|Hne].
    + exists [], (split sep s). split; [done|].
      split; [apply not_elem_of_nil|]. exists (sep :: s). by split; [|right].
    + rewrite E. exists (c :: first), fields. split; [done|]. split.
      * rewrite not_elem_of_cons. by split; [intros ->|].
      * exists rest. split; [by rewrite Hs|done].
Qed.

(** X3: of the date rows the first one of each identifier is kept, and the
    year is its text before the first "-": a prefix of the date that holds
    no "-" and ends where the date ends or a "-" follows. *)
Theorem reconcile_years_first_row (all_dates : list DateRow) (id : Z) :
  reconcile_years all_dates !! id = year_of <$> kept_date all_dates id
  /\ forall date : str,
       (45%N ∉ year_of date)
       /\ exists rest,
            date = year_of date ++ rest
            /\ (rest = [] \/ head rest = Some 45%N).
Proof.
  split; [apply reconcile_years_lookup|]. intros date. unfold year_of.
  destruct (split_head 45 date) as (first & fields & -> & Hnot & Hrest).
  by split.
Qed.

(** ** The author map *)

Lemma authors_body_dom (st st' : author_state) (row : AuthorRow) (id : Z) :
  authors_body st row = Ok st' ->
  as_id st' = row.1
  /\ (is_Some (as_authors st' !! id) ->
      is_Some (as_authors st !! id) \/ id = as_id st).
Proof.
  destruct row as [author_id author]. unfold authors_body. simpl.
  destruct (Z.eqb_spec author_id (as_id st)) as [->|Hne]; simpl.
  - intros [= <-]. simpl. split; [done | by left].
  - destruct (format_authors (as_author_list st)) as [s|e]; [|done]. simpl.
    intros [= <-]. simpl. split; [done|].
    rewrite lookup_insert_is_Some. intros [->|[_ H]]; [by right | by left].
Qed.

Lemma authors_fold_dom (st st' : author_state) (l : list AuthorRow) (id : Z) :
  foldM authors_body st l = Ok st' ->
  is_Some (as_authors st' !! id) ->
  is_Some (as_authors st !! id) \/ id = as_id st \/ id ∈ l.*1.
Proof.
  revert st. induction l as [|row l IH]; intros st.
  - intros [= <-] H. by left.
  - cbn [foldM]. destruct (authors_body st row) as [st1|e] eqn:Hbody; [|done].
    simpl. intros Hloop Hid.
    destruct (authors_body_dom st st1 row id Hbody) as [Hid1 Hdom].
    destruct (IH st1 Hloop Hid) as [H|[H|H]].
    + destruct (Hdom H) as [?|?]; [by left | by right; left].
    + right. right. rewrite H, Hid1. by left.
    + right. right. by right.
Qed.

(** X4: the author loop raises exactly on the empty row sequence, with
    [IndexError]; on any other it returns a map whose identifiers all come
    from the rows. *)
Theorem reconcile_authors_raises_only_on_empty :
  reconcile_authors [] = Raise IndexError
  /\ forall all_authors : list AuthorRow,
       all_authors <> [] ->
       exists authors : gmap Z str,
         reconcile_authors all_authors = Ok authors
         /\ forall id, is_Some (authors !! id) -> id ∈ all_authors.*1.
Proof.
  split; [done|]. intros all_authors Hne.
  destruct (reconcile_authors_Ok all_authors Hne) as [authors Ha].
  exists authors. split; [done|]. intros id Hid.
  unfold reconcile_authors, authors_loop in Ha.
  destruct all_authors as [|row0 l]; [done|].
  unfold getitem in Ha. simpl in Ha.
  destruct (authors_body (mkAuthorState row0.1 [] ∅) row0) as [st1|e] eqn:Hbody;
    [|done].
  simpl in Ha.
  destruct (foldM authors_body st1 l) as [st'|e] eqn:Hloop; [|done].
  simpl in Ha. injection Ha as <-.
  destruct (authors_body_dom _ _ _ id Hbody) as [Hid1 Hdom].
  destruct (authors_fold_dom _ _ _ id Hloop Hid) as [H|[H|H]].
  - destruct (Hdom H) as [[x Hx]|Hx].
    + simpl in Hx. by rewrite lookup_empty in Hx.
    + simpl in Hx. subst. by left.
  - rewrite H, Hid1. by left.
  - by right.
Qed.

Lemma reconcile_authors_raises_only_on_empty_witness :
  exists authors : gmap Z str,
    reconcile_authors [(7, lit "Knuth"); (8, lit "Lamport")] = Ok authors
    /\ forall id, is_Some (authors !! id) ->
                  id ∈ [(7, lit "Knuth"); (8, lit "Lamport")].*1.
Proof.
  apply (proj2 reconcile_authors_raises_only_on_empty
           [(7, lit "Knuth"); (8, lit "Lamport")]).
  discriminate.
Defined.

Lemma entries_fold_lookup_ne (m : gmap Z str) (runs : list (Z * list str))
    (id : Z) :
  id ∉ runs.*1 ->
  foldl (fun m run => <[run.1 := author_template run.2]> m) m runs !! id
  = m !! id.
Proof.
  revert m. induction runs as [|run runs IH]; intros m Hid; [done|].
  simpl in *. apply not_elem_of_cons in Hid as [Hne Hid].
  rewrite IH by done. by rewrite lookup_insert_ne.
Qed.

(** X5: on contiguous runs the entry of an identifier is the template of
    the names of its last run before the final one: when the rows of an
    identifier are split over two runs the names of the earlier run are
    lost, and the identifier of the final run has no entry unless an
    earlier run had it. *)
Theorem authors_last_stored_run_wins
    (runs1 runs2 : list (Z * list str)) (run last : Z * list str) :
  contiguous ((runs1 ++ run :: runs2) ++ [last]) ->
  run.1 ∉ runs2.*1 ->
  exists authors : gmap Z str,
    reconcile_authors (rows_of_runs ((runs1 ++ run :: runs2) ++ [last]))
    = Ok authors
    /\ authors !! run.1 = Some (author_template run.2)
    /\ ((last.1 ∉ (runs1 ++ run :: runs2).*1) -> authors !! last.1 = None).
Proof.
  intros Hc Hrun. exists (entries_of_runs (runs1 ++ run :: runs2)).
  split; [by apply reconcile_authors_runs|]. split.
  - unfold entries_of_runs. rewrite foldl_app. simpl.
    rewrite entries_fold_lookup_ne by done. apply lookup_insert_eq.
  - apply entries_of_runs_lookup_None.
Qed.

Lemma authors_last_stored_run_wins_witness :
  exists authors : gmap Z str,
    reconcile_authors
      [(1, lit "Able"); (2, lit "Baker"); (1, lit "Charlie"); (1, lit "Dog");
       (3, lit "Easy")]
    = Ok authors
    /\ authors !! 1 = Some (lit "Charlie and Dog")
    /\ ((3 ∉ [1; 2; 1]) -> authors !! 3 = None).
Proof.
  apply (authors_last_stored_run_wins
           [(1, [lit "Able"]); (2, [lit "Baker"])] []
           (1, [lit "Charlie"; lit "Dog"]) (3, [lit "Easy"])).
  - simpl. repeat split; discriminate.
  - apply not_elem_of_nil.
Defined.

(** ** Errors and results of the path loop *)

(** X6: the resolution of a raw expression raises only [KeyError], and
    exactly for a [storage:] expression (one that does not also start
    with [attachments:]) whose identifier has no key. *)
Theorem resolve_path_raises (zotero_base_dir zotero_path : Path)
    (keys : gmap Z str) (path_id : Z) (path : str) (e : exn) :
  resolve_path zotero_base_dir zotero_path keys path_id path = Raise e
  <-> e = KeyError
      /\ startswith path (lit "attachments:") = false
      /\ startswith path (lit "storage:") = true
      /\ keys !! path_id = None.
Proof.
  unfold resolve_path, dict_getitem.
  destruct (startswith path (lit "attachments:")).
  - split; [done | by intros (_ & ? & _)].
  - destruct (startswith path (lit "storage:")).
    + destruct (keys !! path_id) as [key|]; simpl.
      * split; [done | by intros (_ & _ & _ & ?)].
      * split; [by intros [= <-] | by intros (-> & _)].
    + split; [done | by intros (_ & _ & ? & _)].
Qed.

Lemma resolved_rows_cons (zotero_base_dir zotero_path : Path)
    (keys : gmap Z str) (row : PathRow) (all_paths : list PathRow) (id : Z) :
  resolved_rows zotero_base_dir zotero_path keys (row :: all_paths) id
  = (if row.1 =? id then
       match row.2 with
       | Some raw =>
           match resolve_path zotero_base_dir zotero_path keys id raw with
           | Ok p => [p]
           | Raise _ => []
           end
       | None => []
       end
     else [])
    ++ resolved_rows zotero_base_dir zotero_path keys all_paths id.
Proof.
  unfold resolved_rows. simpl. destruct (row.1 =? id); [|done].
  destruct row.2 as [raw|]; [|done].
  by destruct (resolve_path zotero_base_dir zotero_path keys id raw).
Qed.

Lemma paths_loop_resolved (zotero_base_dir zotero_path : Path)
    (keys : gmap Z str) (all_paths : list PathRow)
    (paths paths' : gmap Z (list Path)) (id : Z) :
  (forall i raw, (i, Some raw) ∈ all_paths -> head raw <> Some 91%N) ->
  foldM (paths_body zotero_base_dir zotero_path keys) paths all_paths
  = Ok paths' ->
  default [] (paths' !! id)
  = default [] (paths !! id)
    ++ resolved_rows zotero_base_dir zotero_path keys all_paths id.
Proof.
  revert paths. induction all_paths as [|[i [raw|]] l IH]; intros paths Hhead.
  - intros [= <-]. by rewrite app_nil_r.
  - cbn [foldM]. rewrite resolved_rows_cons. cbn [fst snd].
    assert (head raw <> Some 91%N) as Hraw by (apply (Hhead i); by left).
    destruct (resolve_path zotero_base_dir zotero_path keys i raw) as [p|e]
      eqn:Hp.
    + rewrite (paths_body_appends _ _ _ _ _ _ p Hraw Hp). simpl.
      intros Hloop. rewrite (IH _ (fun i' r H => Hhead i' r (list_elem_of_further _ _ _ H)) Hloop).
      destruct (Z.eqb_spec i id) as [->|Hne].
      * rewrite lookup_insert_eq, Hp. simpl. by rewrite <- app_assoc.
      * by rewrite lookup_insert_ne.
    + unfold paths_body.
      destruct (already_recorded paths i raw) eqn:Hrec;
        [by apply already_recorded_bracket in Hrec|].
      by rewrite Hp.
  - cbn [foldM]. rewrite resolved_rows_cons. cbn [fst snd]. simpl.
    intros Hloop.
    rewrite (IH _ (fun i' r H => Hhead i' r (list_elem_of_further _ _ _ H)) Hloop).
    by destruct (i =? id).
Qed.

(** X7: when no raw expression starts with an opening bracket (no path of
    a library does) and the loop returns, the list of an identifier is
    exactly the resolved paths of its rows that have a path, one for each
    row and in the order of the rows: NULL rows leave no trace and nothing
    is left out as a duplicate. *)
Theorem paths_are_the_resolved_rows (zotero_base_dir zotero_path : Path)
    (keys : gmap Z str) (all_paths : list PathRow)
    (paths : gmap Z (list Path)) (id : Z) :
  (forall i raw, (i, Some raw) ∈ all_paths -> head raw <> Some 91%N) ->
  reconcile_paths zotero_base_dir zotero_path keys all_paths = Ok paths ->
  default [] (paths !! id)
  = resolved_rows zotero_base_dir zotero_path keys all_paths id.
Proof.
  intros Hhead Hloop. unfold reconcile_paths in Hloop.
  rewrite (paths_loop_resolved _ _ _ _ _ _ id Hhead Hloop).
  by rewrite lookup_empty.
Qed.

Lemma paths_are_the_resolved_rows_witness :
  let rows := [(1, Some (lit "attachments:a.pdf")); (2, None);
               (1, Some (lit "/x/b.pdf")); (1, Some (lit "attachments:a.pdf"))] in
  default [] (({[1 := [pathlib.of_str (lit "/base/a.pdf");
                       pathlib.of_str (lit "/x/b.pdf");
                       pathlib.of_str (lit "/base/a.pdf")]]}
               : gmap Z (list Path)) !! 1)
  = resolved_rows sample.zotero_base_dir sample.zotero_path ∅ rows 1.
Proof.
  intros rows.
  apply (paths_are_the_resolved_rows sample.zotero_base_dir
           sample.zotero_path ∅ rows).
  - intros i raw Hin. apply list_elem_of_In in Hin. simpl in Hin.
    destruct Hin as [[= <- <-]|[[=]|[[= <- <-]|[[= <- <-]|[]]]]];
      discriminate.
  - vm_compute. reflexivity.
Defined.

(** What a row with a path does to the identifiers of [paths]. *)
Lemma paths_body_Some_dom (zotero_base_dir zotero_path : Path)
    (keys : gmap Z str) (paths paths' : gmap Z (list Path)) (i : Z)
    (raw : str) (id : Z) :
  paths_body zotero_base_dir zotero_path keys paths (i, Some raw) = Ok paths' ->
  is_Some (paths' !! id) <-> is_Some (paths !! id) \/ id = i.
Proof.
  destruct (already_recorded paths i raw) eqn:Hrec.
  - unfold paths_body. rewrite Hrec. intros [= <-]. split; [by left|].
    intros [H| ->]; [done|]. by eapply already_recorded_Some.
  - destruct (resolve_path zotero_base_dir zotero_path keys i raw) as [p|e]
      eqn:Hp.
    + rewrite (paths_body_Some _ _ _ _ _ _ p Hrec Hp). intros [= <-].
      rewrite lookup_insert_is_Some. split.
      * intros [->|[_ H]]; [by right | by left].
      * destruct (decide (i = id)) as [->|Hne]; [by left|].
        intros [H| ->]; [by right | done].
    + unfold paths_body. by rewrite Hrec, Hp.
Qed.

Lemma paths_loop_dom (zotero_base_dir zotero_path : Path) (keys : gmap Z str)
    (all_paths : list PathRow) (paths paths' : gmap Z (list Path)) (id : Z) :
  foldM (paths_body zotero_base_dir zotero_path keys) paths all_paths
  = Ok paths' ->
  is_Some (paths' !! id)
  <-> is_Some (paths !! id) \/ exists raw, (id, Some raw) ∈ all_paths.
Proof.
  revert paths. induction all_paths as [|[i [raw|]] l IH]; intros paths.
  - intros [= <-]. split; [by left|].
    intros [H|[raw H]]; [done | by apply elem_of_nil in H].
  - cbn [foldM].
    destruct (paths_body zotero_base_dir zotero_path keys paths (i, Some raw))
      as [paths1|e] eqn:Hbody; [|done].
    simpl. intros Hloop. rewrite (IH _ Hloop).
    rewrite (paths_body_Some_dom _ _ _ _ _ _ _ id Hbody). split.
    + intros [[H| ->]|[r Hr]]; [by left| |].
      * right. exists raw. by left.
      * right. exists r. by right.
    + intros [H|[r Hr]]; [by left; left|].
      apply elem_of_cons in Hr as [[= -> ->]|Hr]; [by left; right|].
      right. by exists r.
  - cbn [foldM]. simpl. intros Hloop. rewrite (IH _ Hloop). split.
    + intros [H|[r Hr]]; [by left|]. right. exists r. by right.
    + intros [H|[r Hr]]; [by left|].
      apply elem_of_cons in Hr as [[=]|Hr]. right. by exists r.
Qed.

Lemma paths_loop_sound (zotero_base_dir zotero_path : Path)
    (keys : gmap Z str) (all_paths : list PathRow)
    (paths paths' : gmap Z (list Path)) (id : Z) (l : list Path) (p : Path) :
  foldM (paths_body zotero_base_dir zotero_path keys) paths all_paths
  = Ok paths' ->
  paths' !! id = Some l -> p ∈ l ->
  (exists l0, paths !! id = Some l0 /\ p ∈ l0)
  \/ exists raw,
       (id, Some raw) ∈ all_paths
       /\ resolve_path zotero_base_dir zotero_path keys id raw = Ok p.
Proof.
  revert paths. induction all_paths as [|row rows IH]; intros paths.
  - intros [= <-] Hl Hp. left. by exists l.
  - cbn [foldM].
    destruct (paths_body zotero_base_dir zotero_path keys paths row)
      as [paths1|e] eqn:Hbody; [|done].
    simpl. intros Hloop Hl Hp.
    destruct (IH _ Hloop Hl Hp) as [(l1 & Hl1 & Hp1)|(raw & Hin & Hres)].
    + destruct (paths_body_cases _ _ _ _ _ _ Hbody)
        as [->|(raw & q & Hrow & Hq & ->)].
      * left. by exists l1.
      * destruct (decide (row.1 = id)) as [Hid|Hne].
        -- rewrite Hid, lookup_insert_eq in Hl1. injection Hl1 as <-.
           apply elem_of_app in Hp1 as [Hp1|Hp1].
           ++ left. destruct (paths !! id) as [l0|] eqn:E; simpl in Hp1.
              ** by exists l0.
              ** by apply elem_of_nil in Hp1.
           ++ apply list_elem_of_singleton in Hp1 as ->. right. exists raw.
              split; [|by rewrite <- Hid].
              destruct row as [i o]. simpl in *. subst. by left.
        -- rewrite lookup_insert_ne in Hl1 by done. left. by exists l1.
    + right. exists raw. split; [by right | done].
Qed.

(** X8: when the path loop returns, an identifier has a list exactly when
    one of its rows has a path; the list is never empty, and each of its
    paths is the resolution of the expression of one of the identifier's
    rows. *)
Theorem reconcile_paths_sound (zotero_base_dir zotero_path : Path)
    (keys : gmap Z str) (all_paths : list PathRow)
    (paths : gmap Z (list Path)) :
  reconcile_paths zotero_base_dir zotero_path keys all_paths = Ok paths ->
  forall id : Z,
    (is_Some (paths !! id) <-> exists raw, (id, Some raw) ∈ all_paths)
    /\ forall l : list Path,
         paths !! id = Some l ->
         l <> []
         /\ forall p : Path,
              p ∈ l ->
              exists raw,
                (id, Some raw) ∈ all_paths
                /\ resolve_path zotero_base_dir zotero_path keys id raw = Ok p.
Proof.
  unfold reconcile_paths. intros Hloop id. split.
  - rewrite (paths_loop_dom _ _ _ _ _ _ id Hloop). split; [|by right].
    intros [[x Hx]|H]; [by rewrite lookup_empty in Hx | done].
  - intros l Hl. split.
    + by eapply (paths_loop_nonempty _ _ _ _ ∅ paths Hloop).
    + intros p Hp.
      destruct (paths_loop_sound _ _ _ _ _ _ _ _ _ Hloop Hl Hp)
        as [(l0 & Hl0 & _)|H]; [by rewrite lookup_empty in Hl0 | done].
Qed.

Lemma reconcile_paths_sound_witness :
  let a := pathlib.of_str (lit "/base/a.pdf") in
  (is_Some (({[1 := [a]]} : gmap Z (list Path)) !! 1)
   <-> exists raw, (1, Some raw) ∈ [(1, Some (lit "attachments:a.pdf")); (2, None)])
  /\ forall l : list Path,
       ({[1 := [a]]} : gmap Z (list Path)) !! 1 = Some l ->
       l <> []
       /\ forall p : Path,
            p ∈ l ->
            exists raw,
              (1, Some raw) ∈ [(1, Some (lit "attachments:a.pdf")); (2, None)]
              /\ resolve_path sample.zotero_base_dir sample.zotero_path ∅ 1 raw
                 = Ok p.
Proof.
  intros a.
  apply (reconcile_paths_sound sample.zotero_base_dir sample.zotero_path ∅
           [(1, Some (lit "attachments:a.pdf")); (2, None)] {[1 := [a]]}).
  vm_compute. reflexivity.
Defined.



(** ** The catalog and the snapshot *)

(** X17: when the catalog is built it holds exactly one entry for each
    identifier with a title row: the label made of the title of the
    identifier's first title row, its entry in the author map, and the
    year of its first date row. *)
Theorem catalog_entries (r : rows) (zotero_path zotero_base_dir : Path)
    (c : list (str * Z)) (paths : gmap Z (list Path)) :
  build_catalog r zotero_path zotero_base_dir = Ok (c, paths) ->
  exists authors : gmap Z str,
    reconcile_authors (all_authors r) = Ok authors
    /\ NoDup c.*2
    /\ forall (label : str) (id : Z),
         (label, id) ∈ c
         <-> exists title key,
               kept_title (all_titles r) id = Some (title, key)
               /\ label = format_item title (authors !! id)
                            (year_of <$> kept_date (all_dates r) id).
Proof.
  intros H. apply build_catalog_Ok in H as (authors & Ha & _ & ->).
  exists authors. split; [done|]. split.
  { unfold sort_items. rewrite <- sort_perm, build_items_ids.
    apply reconcile_titles_NoDup. }
  intros label id. unfold sort_items. rewrite <- sort_perm.
  unfold build_items. rewrite list_elem_of_fmap. split.
  - intros ([i title] & [= -> ->] & Hin).
    apply (proj1 (reconcile_titles_kept _ _)) in Hin as [key Hkey].
    exists title, key. split; [done|]. by rewrite reconcile_years_lookup.
  - intros (title & key & Hkey & ->). exists (id, title). split.
    + by rewrite reconcile_years_lookup.
    + apply (proj1 (reconcile_titles_kept _ _)). by exists key.
Qed.

Lemma catalog_entries_witness :
  exists authors : gmap Z str,
    reconcile_authors (all_authors sample.rows_one) = Ok authors
    /\ NoDup [(lit "Smith - T", 1)].*2
    /\ forall (label : str) (id : Z),
         (label, id) ∈ [(lit "Smith - T", 1)]
         <-> exists title key,
               kept_title (all_titles sample.rows_one) id = Some (title, key)
               /\ label = format_item title (authors !! id)
                            (year_of <$> kept_date (all_dates sample.rows_one) id).
Proof.
  apply (catalog_entries sample.rows_one sample.zotero_path
           sample.zotero_base_dir [(lit "Smith - T", 1)]
           {[1 := [pathlib.of_str (lit "/a.pdf")]]}).
  vm_compute. reflexivity.
Defined.

(** X16: the title query and the path query of a snapshot give the same
    identifiers, each as often in the one as in the other, so every path
    row has a key and the path loop on a snapshot returns: with rows from
    the database, [KeyError] in the loop does not occur. *)
Theorem snapshot_path_rows_have_keys (db : sqlite.database)
    (zotero_path zotero_base_dir : Path) :
  Permutation (sqlite._QUERY_TITLES db).*1.*1 (sqlite._QUERY_PATHS db).*1
  /\ (forall id path,
         (id, path) ∈ sqlite._QUERY_PATHS db ->
         is_Some ((reconcile_titles (sqlite._QUERY_TITLES db)).2 !! id))
  /\ exists paths : gmap Z (list Path),
       reconcile_paths zotero_base_dir zotero_path
         (reconcile_titles (sqlite._QUERY_TITLES db)).2
         (sqlite._QUERY_PATHS db) = Ok paths.
Proof.
  assert (forall id path,
             (id, path) ∈ sqlite._QUERY_PATHS db ->
             is_Some ((reconcile_titles (sqlite._QUERY_TITLES db)).2 !! id))
    as Hkeys.
  { intros id path Hin. apply (proj2 (proj2 (reconcile_titles_ids _ _))).
    by eapply query_title_of_path. }
  split; [|split; [done|]].
  - unfold sqlite._QUERY_TITLES, sqlite._QUERY_PATHS.
    rewrite <- !list_fmap_compose. done.
  - destruct (paths_loop_Ok zotero_base_dir zotero_path
                (reconcile_titles (sqlite._QUERY_TITLES db)).2
                (sqlite._QUERY_PATHS db) ∅) as (paths & Hp & _).
    + intros id raw. apply Hkeys.
    + by exists paths.
Qed.

(** ** The command line of the viewer *)

Lemma contains_unfold (s sub : str) :
  contains s sub
  = (startswith s sub
     || match s with
        | [] => false
        | _ :: s' => contains s' sub
        end).
Proof. by destruct s. Qed.

Lemma contains_infix (pre w post : str) : contains (pre ++ w ++ post) w = true.
Proof.
  induction pre as [|c pre IH].
  - rewrite contains_unfold. simpl. by rewrite startswith_app.
  - rewrite contains_unfold. simpl. rewrite IH. apply orb_true_r.
Qed.

(** A word of [s.split()] is a piece of [s]. *)
Lemma split_ws_aux_infix (field s w : str) :
  w ∈ split_ws_aux field s -> exists pre post, field ++ s = pre ++ w ++ post.
Proof.
  revert field. induction s as [|c s IH]; intros field; simpl.
  - destruct (str_eqb field []); [by intros H; apply elem_of_nil in H|].
    intros H. apply list_elem_of_singleton in H as ->.
    exists [], []. by rewrite !app_nil_r.
  - destruct (isspace c).
    + rewrite elem_of_app. intros [H|H].
      * destruct (str_eqb field []); [by apply elem_of_nil in H|].
        apply list_elem_of_singleton in H as ->. by exists [], (c :: s).
      * destruct (IH [] H) as (pre & post & E). simpl in E.
        exists (field ++ c :: pre), post. rewrite E.
        by rewrite <- app_assoc.
    + intros H. destruct (IH _ H) as (pre & post & E).
      exists pre, post. rewrite <- E. by rewrite <- app_assoc.
Qed.

Lemma split_ws_contains (s w : str) : w ∈ split_ws s -> contains s w = true.
Proof.
  intros H. destruct (split_ws_aux_infix [] s w H) as (pre & post & E).
  simpl in E. rewrite E. apply contains_infix.
Qed.

Lemma fmap_id_on {A : Type} (f : A -> A) (l : list A) :
  (forall x, x ∈ l -> f x = x) -> f <$> l = l.
Proof.
  induction l as [|x l IH]; intros H; [done|].
  simpl. rewrite H by (by left). f_equal. apply IH. intros y Hy. apply H.
  by right.
Qed.

(** X10: [open_file] runs the viewer once. When "%u" is one of the words
    of the command, each such word is replaced by the path and nothing is
    added; when "%u" does not occur in the command, the path is added as
    the last argument; when "%u" occurs only inside longer words, the words
    are passed as they are and the path is not added. *)
Theorem open_file_argv (app : str) (file_path : Path) :
  let words := split_ws app in
  let path := pathlib.to_str file_path in
  exists argv : list str,
    open_file app file_path = Prog [ViewerRun argv] (Ok tt)
    /\ (lit "%u" ∈ words ->
        argv = (fun arg => if str_eqb arg (lit "%u") then path else arg)
               <$> words
        /\ path ∈ argv /\ length argv = length words)
    /\ (contains app (lit "%u") = false -> argv = words ++ [path])
    /\ (contains app (lit "%u") = true -> (lit "%u" ∉ words) -> argv = words).
Proof.
  intros words path. unfold open_file. fold words path.
  assert ((fun arg => if negb (str_eqb arg (lit "%u")) then arg else path)
          <$> words
          = (fun arg => if str_eqb arg (lit "%u") then path else arg) <$> words)
    as ->.
  { apply list_fmap_ext. intros _ arg _. by destruct (str_eqb arg (lit "%u")). }
  eexists. split; [reflexivity|]. split; [|split].
  - intros Hin. rewrite (split_ws_contains app _ Hin). simpl.
    split; [done|]. split; [|by rewrite length_fmap].
    apply list_elem_of_fmap. exists (lit "%u"). by rewrite str_eqb_refl.
  - intros Hno. rewrite Hno. simpl. f_equal. apply fmap_id_on.
    intros arg Harg. destruct (str_eqb arg (lit "%u")) eqn:E; [|done].
    apply str_eqb_eq in E as ->.
    by rewrite (split_ws_contains app _ Harg) in Hno.
  - intros Hyes Hnot. rewrite Hyes. simpl. apply fmap_id_on.
    intros arg Harg. destruct (str_eqb arg (lit "%u")) eqn:E; [|done].
    apply str_eqb_eq in E as ->. done.
Qed.

Lemma open_file_argv_witness :
  let p := pathlib.of_str (lit "/a b.pdf") in
  open_file (lit "xdg-open %u") p
  = Prog [ViewerRun [lit "xdg-open"; lit "/a b.pdf"]] (Ok tt)
  /\ open_file (lit "evince  -f") p
     = Prog [ViewerRun [lit "evince"; lit "-f"; lit "/a b.pdf"]] (Ok tt)
  /\ open_file (lit "viewer --file=%u") p
     = Prog [ViewerRun [lit "viewer"; lit "--file=%u"]] (Ok tt).
Proof.
  intros p.
  destruct (open_file_argv (lit "xdg-open %u") p) as (a1 & E1 & H1 & _).
  destruct (open_file_argv (lit "evince  -f") p) as (a2 & E2 & _ & H2 & _).
  destruct (open_file_argv (lit "viewer --file=%u") p)
    as (a3 & E3 & _ & _ & H3).
  split; [|split].
  - rewrite E1. destruct H1 as (-> & _); [|reflexivity].
    vm_compute. right. left.
  - rewrite E2, H2; reflexivity.
  - rewrite E3, H3; [reflexivity | reflexivity |].
    vm_compute. intros H. apply list_elem_of_In in H.
    destruct H as [[=]|[[=]|[]]].
Defined.

(** ** What [main] does and does not do *)

Lemma choose_file_events (w : world) (rofi_args : list str)
    (prompt_attachment : str) (files_to_open : list Path) :
  Forall (fun e => is_menu_or_print e = true)
    (trace (choose_file w rofi_args prompt_attachment files_to_open)).
Proof.
  unfold choose_file. destruct (_ =? _)%nat.
  - apply trace_bind; [apply trace_lift | intros; constructor].
  - apply trace_bind; [apply trace_lift | intros files].
    apply trace_bind; [by repeat constructor | intros r].
    destruct r; try constructor.
    apply trace_bind; [apply trace_lift | intros; constructor].
Qed.

Lemma select_file_events (w : world) (r : rows)
    (zotero_path zotero_base_dir : Path) (list_only : bool)
    (rofi_args : list str) (prompt_paper prompt_attachment : str) :
  Forall (fun e => is_menu_or_print e = true)
    (trace (select_file w r zotero_path zotero_base_dir list_only rofi_args
              prompt_paper prompt_attachment)).
Proof.
  unfold select_file.
  apply trace_bind; [apply trace_lift | intros [item_list_with_ids paths]].
  destruct list_only.
  - apply trace_bind; [by repeat constructor | intros; constructor].
  - apply trace_bind; [by repeat constructor | intros rep].
    destruct rep; try constructor.
    apply trace_bind; [apply trace_lift | intros files].
    apply choose_file_events.
Qed.

(** [main] is [select_file] followed by the last step. *)
Lemma main_rows_cases (w : world) (r : rows)
    (zotero_path zotero_base_dir : Path) (list_only : bool) (viewer : str)
    (rofi_args : list str) (prompt_paper prompt_attachment : str) :
  let sel := select_file w r zotero_path zotero_base_dir list_only rofi_args
               prompt_paper prompt_attachment in
  let run := main_rows w r zotero_path zotero_base_dir list_only viewer
               rofi_args prompt_paper prompt_attachment in
  match outcome sel with
  | Raise e => run = Prog (trace sel) (Raise e)
  | Ok None => run = Prog (trace sel) (Ok tt)
  | Ok (Some file_to_open) =>
      run = Prog (trace sel
                    ++ trace (open_or_report w viewer rofi_args file_to_open))
              (outcome (open_or_report w viewer rofi_args file_to_open))
  end.
Proof.
  intros sel run. unfold run, main_rows. unfold mbind, prog_bind.
  change (select_file w r zotero_path zotero_base_dir list_only rofi_args
            prompt_paper prompt_attachment) with sel.
  generalize sel. clear sel run. intros sel.
  destruct (outcome sel) as [[f|]|e]; [reflexivity| |reflexivity].
  simpl. by rewrite app_nil_r.
Qed.

(** X11: the viewer is run only as the last thing [main] does, only for
    the file that was chosen, and only when that file exists. *)
Theorem viewer_run_only_for_existing_file (w : world) (r : rows)
    (zotero_path zotero_base_dir : Path) (list_only : bool) (viewer : str)
    (rofi_args : list str) (prompt_paper prompt_attachment : str)
    (argv : list str) :
  let sel := select_file w r zotero_path zotero_base_dir list_only rofi_args
               prompt_paper prompt_attachment in
  let run := main_rows w r zotero_path zotero_base_dir list_only viewer
               rofi_args prompt_paper prompt_attachment in
  ViewerRun argv ∈ trace run ->
  exists file_to_open : Path,
    outcome sel = Ok (Some file_to_open)
    /\ path_exists w file_to_open = true
    /\ open_file viewer file_to_open = Prog [ViewerRun argv] (Ok tt)
    /\ run = Prog (trace sel ++ [ViewerRun argv]) (Ok tt).
Proof.
  intros sel run Hin.
  pose proof (select_file_events w r zotero_path zotero_base_dir list_only
                rofi_args prompt_paper prompt_attachment) as Hsel.
  fold sel in Hsel.
  assert (ViewerRun argv ∉ trace sel) as Hnot.
  { intros H. rewrite Forall_forall in Hsel. by apply Hsel in H. }
  pose proof (main_rows_cases w r zotero_path zotero_base_dir list_only viewer
                rofi_args prompt_paper prompt_attachment) as Hcases.
  fold sel run in Hcases. cbv zeta in Hcases.
  destruct (outcome sel) as [[f|]|e] eqn:Hout.
  - exists f. split; [done|]. rewrite Hcases in Hin |- *. simpl in Hin.
    apply elem_of_app in Hin as [Hin|Hin]; [done|].
    unfold open_or_report in *.
    destruct (path_exists w f).
    + unfold open_file, emit in *. simpl in Hin.
      apply list_elem_of_singleton in Hin as [= <-]. done.
    + simpl in Hin. apply list_elem_of_In in Hin.
      destruct Hin as [[=]|[[=]|[]]].
  - by rewrite Hcases in Hin.
  - by rewrite Hcases in Hin.
Qed.

Lemma viewer_run_only_for_existing_file_witness :
  let f := pathlib.of_str (lit "/a.pdf") in
  outcome (select_file sample_world.present sample.rows_one sample.zotero_path
             sample.zotero_base_dir false [lit "-i"] (lit "paper")
             (lit "attachment")) = Ok (Some f)
  /\ path_exists sample_world.present f = true
  /\ open_file (lit "xdg-open %u") f
     = Prog [ViewerRun [lit "xdg-open"; lit "/a.pdf"]] (Ok tt).
Proof.
  intros f.
  destruct (viewer_run_only_for_existing_file sample_world.present
              sample.rows_one sample.zotero_path sample.zotero_base_dir false
              (lit "xdg-open %u") [lit "-i"] (lit "paper") (lit "attachment")
              [lit "xdg-open"; lit "/a.pdf"])
    as (f' & Hsel & Hex & Hopen & _).
  { vm_compute. right. left. }
  assert (f' = f) as -> by (vm_compute in Hsel; by injection Hsel as <-).
  done.
Defined.

(** X12: the error message is printed only when a file was chosen and is
    not on disk, and it names that file; a cancelled picker, the list mode
    and an exception before the choice print no error. *)
Theorem error_only_for_missing_file (w : world) (r : rows)
    (zotero_path zotero_base_dir : Path) (list_only : bool) (viewer : str)
    (rofi_args : list str) (prompt_paper prompt_attachment : str)
    (msg : str) :
  let sel := select_file w r zotero_path zotero_base_dir list_only rofi_args
               prompt_paper prompt_attachment in
  let run := main_rows w r zotero_path zotero_base_dir list_only viewer
               rofi_args prompt_paper prompt_attachment in
  PrintedErr msg ∈ trace run ->
  exists file_to_open : Path,
    outcome sel = Ok (Some file_to_open)
    /\ path_exists w file_to_open = false
    /\ msg = lit "Could not find file: " ++ pathlib.to_str file_to_open.
Proof.
  intros sel run Hin.
  pose proof (select_file_events w r zotero_path zotero_base_dir list_only
                rofi_args prompt_paper prompt_attachment) as Hsel.
  fold sel in Hsel.
  assert (PrintedErr msg ∉ trace sel) as Hnot.
  { intros H. rewrite Forall_forall in Hsel. by apply Hsel in H. }
  pose proof (main_rows_cases w r zotero_path zotero_base_dir list_only viewer
                rofi_args prompt_paper prompt_attachment) as Hcases.
  fold sel run in Hcases. cbv zeta in Hcases.
  destruct (outcome sel) as [[f|]|e] eqn:Hout.
  - exists f. split; [done|]. rewrite Hcases in Hin. simpl in Hin.
    apply elem_of_app in Hin as [Hin|Hin]; [done|].
    unfold open_or_report in *.
    destruct (path_exists w f).
    + unfold open_file, emit in Hin. simpl in Hin.
      by apply list_elem_of_singleton in Hin.
    + split; [done|]. simpl in Hin. apply list_elem_of_In in Hin.
      destruct Hin as [[= <-]|[[=]|[]]]. done.
  - by rewrite Hcases in Hin.
  - by rewrite Hcases in Hin.
Qed.

Lemma error_only_for_missing_file_witness :
  exists file_to_open : Path,
    outcome (select_file sample.world_missing sample.rows_one
               sample.zotero_path sample.zotero_base_dir false [lit "-i"]
               (lit "paper") (lit "attachment")) = Ok (Some file_to_open)
    /\ path_exists sample.world_missing file_to_open = false
    /\ lit "Could not find file: /a.pdf"
       = lit "Could not find file: " ++ pathlib.to_str file_to_open.
Proof.
  apply (error_only_for_missing_file sample.world_missing sample.rows_one
           sample.zotero_path sample.zotero_base_dir false (lit "xdg-open %u")
           [lit "-i"] (lit "paper") (lit "attachment")).
  vm_compute. right. left.
Defined.

(** X13: in list mode [main] prints the labels of the catalog, one per
    line, and does nothing else; when the first picker is cancelled [main]
    returns after that one menu. *)
Theorem main_returns_early (w : world) (r : rows)
    (zotero_path zotero_base_dir : Path) (viewer : str)
    (rofi_args : list str) (prompt_paper prompt_attachment : str)
    (c : list (str * Z)) (paths : gmap Z (list Path)) :
  build_catalog r zotero_path zotero_base_dir = Ok (c, paths) ->
  main_rows w r zotero_path zotero_base_dir true viewer rofi_args
    prompt_paper prompt_attachment
  = Prog [Printed (join newline c.*1)] (Ok tt)
  /\ let rofi_command :=
       [lit "rofi"; lit "-dmenu"; lit "-format"; lit "i"] ++ rofi_args
         ++ [lit "-p"; prompt_paper] in
     (rofi w rofi_command (join newline c.*1) = NoSelection ->
      main_rows w r zotero_path zotero_base_dir false viewer rofi_args
        prompt_paper prompt_attachment
      = Prog [RofiRun rofi_command (Some (join newline c.*1))] (Ok tt)).
Proof.
  intros Hc. split.
  - unfold main_rows, select_file. rewrite Hc. reflexivity.
  - intros rofi_command Hno. unfold main_rows, select_file. rewrite Hc.
    unfold mbind, prog_bind, lift, run_rofi, rofi_command in *.
    simpl in Hno |- *. by rewrite Hno.
Qed.

Lemma main_returns_early_witness :
  main_rows sample_world.cancelled sample.rows_one sample.zotero_path
    sample.zotero_base_dir true (lit "xdg-open %u") [] (lit "paper")
    (lit "attachment")
  = Prog [Printed (lit "Smith - T")] (Ok tt)
  /\ main_rows sample_world.cancelled sample.rows_one sample.zotero_path
       sample.zotero_base_dir false (lit "xdg-open %u") [] (lit "paper")
       (lit "attachment")
     = Prog [RofiRun [lit "rofi"; lit "-dmenu"; lit "-format"; lit "i";
                      lit "-p"; lit "paper"] (Some (lit "Smith - T"))] (Ok tt).
Proof.
  destruct (main_returns_early sample_world.cancelled sample.rows_one
              sample.zotero_path sample.zotero_base_dir (lit "xdg-open %u") []
              (lit "paper") (lit "attachment") [(lit "Smith - T", 1)]
              {[1 := [pathlib.of_str (lit "/a.pdf")]]}) as [H1 H2].
  { vm_compute. reflexivity. }
  split; [exact H1|]. apply H2. reflexivity.
Defined.

(** ** The display names and the selection *)

(** X14: with the configured budget of 80 and fraction 0.5 a file name is
    shown as it is when it has at most 80 characters, and otherwise as its
    first 40 characters, the ellipsis and its last 39 characters; the
    display name never has more than 80 characters and [format_path] never
    raises. *)
Theorem display_name_within_budget (path : Path) :
  let name := pathlib.name path in
  exists s : str,
    format_path path FORMAT_PATH_MAXLEN FORMAT_PATH_FULLPATH
      FORMAT_PATH_ENDING_FRACTION = Ok s
    /\ len s <= 80
    /\ (len name <= 80 -> s = name)
    /\ (80 < len name ->
        s = take 40 name ++ [ellipsis] ++ drop (length name - 39) name
        /\ len s = 80).
Proof.
  intros name. destruct (Z.le_gt_cases (len name) 80) as [Hle|Hgt].
  - exists name. split; [by apply (format_path_within path 80 false)|].
    split; [done|]. split; [done | lia].
  - destruct (format_path_beyond path 80 false float_half
                (S754_finite false 5629499534213120 (-47)) 40 Hgt
                eq_refl eq_refl ltac:(lia) ltac:(lia))
      as (Hout & Hfront & Hback).
    eexists. split; [exact Hout|].
    assert (len (take (Z.to_nat (80 - (40 - 1) - 1)) (pathlib.name path)
                 ++ [ellipsis]
                 ++ drop (length (pathlib.name path) - Z.to_nat (40 - 1))
                      (pathlib.name path)) = 80) as Hlen.
    { rewrite !len_app. simpl in Hfront, Hback. rewrite Hfront, Hback.
      unfold len. simpl. lia. }
    split; [lia|]. split; [fold name; lia|]. intros _. by split.
Qed.





(** ** The statements above on sample inputs *)

Lemma reconcile_titles_first_row_witness :
  (reconcile_titles [(5, lit "First", lit "KEYAAAAA");
                     (5, lit "Second", lit "KEYBBBBB")]).2 !! 5
  = Some (lit "KEYAAAAA")
  /\ (5, lit "First")
     ∈ (reconcile_titles [(5, lit "First", lit "KEYAAAAA");
                          (5, lit "Second", lit "KEYBBBBB")]).1.
Proof.
  apply (proj2 (proj2 (reconcile_titles_first_row [] 5))
           (lit "First") (lit "KEYAAAAA") (lit "Second") (lit "KEYBBBBB") []).
Defined.

Lemma resolve_path_raises_witness :
  resolve_path sample.zotero_base_dir sample.zotero_path ∅ 3
    (lit "storage:paper.pdf") = Raise KeyError.
Proof.
  apply (proj2 (resolve_path_raises sample.zotero_base_dir sample.zotero_path
                  ∅ 3 (lit "storage:paper.pdf") KeyError)).
  repeat split; reflexivity.
Defined.

Lemma display_name_within_budget_witness :
  exists s : str,
    format_path (pathlib.of_str (lit "/papers/turing-1936.pdf"))
      FORMAT_PATH_MAXLEN FORMAT_PATH_FULLPATH FORMAT_PATH_ENDING_FRACTION
    = Ok s
    /\ s = lit "turing-1936.pdf".
Proof.
  destruct (display_name_within_budget
              (pathlib.of_str (lit "/papers/turing-1936.pdf")))
    as (s & Hs & _ & Hshort & _).
  exists s. split; [exact Hs|]. apply Hshort. vm_compute. discriminate.
Defined.

Lemma snapshot_path_rows_have_keys_witness :
  Permutation (sqlite._QUERY_TITLES sample.db_with_path).*1.*1
    (sqlite._QUERY_PATHS sample.db_with_path).*1
  /\ is_Some ((reconcile_titles (sqlite._QUERY_TITLES sample.db_with_path)).2
                !! 1).
Proof.
  destruct (snapshot_path_rows_have_keys sample.db_with_path
              sample.zotero_path sample.zotero_base_dir) as (Hids & Hkeys & _).
  split; [exact Hids|].
  apply (Hkeys 1 (Some (lit "storage:paper.pdf"))).
  vm_compute. left.
Defined.

(** ** The order of the catalog is canonical *)

Lemma sort_items_strongly_sorted (l : list (str * Z)) :
  StronglySorted (not_after item_ltb) (sort_items l).
Proof.
  apply sort_sorted.
  - apply strict_asym; [apply item_ltb_irrefl | apply item_ltb_trans].
  - apply strict_negtrans; [apply item_ltb_trans | apply item_ltb_total].
Qed.

(** Two sorted lists with the same elements are equal. *)
Lemma strongly_sorted_unique {A : Type} (R : A -> A -> Prop) (l1 l2 : list A) :
  (forall x y, R x y -> R y x -> x = y) ->
  StronglySorted R l1 -> StronglySorted R l2 -> Permutation l1 l2 -> l1 = l2.
Proof.
  intros Hanti Hl1. revert l2.
  induction Hl1 as [|x1 l1 Hl1 IH Hx1]; intros l2 Hl2 Hperm.
  - symmetry. by apply Permutation_nil.
  - destruct Hl2 as [|x2 l2 Hl2 Hx2].
    + symmetry in Hperm. by apply Permutation_nil_cons in Hperm.
    + assert (x1 = x2) as ->.
      { assert (x1 ∈ x2 :: l2) as H1 by (rewrite <- Hperm; by left).
        assert (x2 ∈ x1 :: l1) as H2 by (rewrite Hperm; by left).
        apply elem_of_cons in H1 as [H1|H1]; [done|].
        apply elem_of_cons in H2 as [H2|H2]; [done|].
        rewrite Forall_forall in Hx1, Hx2.
        apply Hanti; [by apply Hx1 | by apply Hx2]. }
      f_equal. apply IH; [done|]. by apply Permutation_cons_inv in Hperm.
Qed.

(** X19: the sorted catalog depends only on which (label, identifier)
    pairs there are, not on the order in which they were built: two lists
    with the same pairs sort to the same list, and sorting a sorted catalog
    again changes nothing. *)
Theorem sort_items_canonical (l1 l2 : list (str * Z)) :
  Permutation l1 l2 ->
  sort_items l1 = sort_items l2
  /\ sort_items (sort_items l1) = sort_items l1.
Proof.
  intros Hperm.
  assert (forall a b : list (str * Z),
             Permutation a b -> sort_items a = sort_items b) as Hcanon.
  { intros a b Hab.
    apply (strongly_sorted_unique (not_after item_ltb)).
    - intros x1 x2 H1 H2. symmetry. by apply item_ltb_total.
    - apply sort_items_strongly_sorted.
    - apply sort_items_strongly_sorted.
    - unfold sort_items. by rewrite <- !sort_perm. }
  split; [by apply Hcanon|].
  apply Hcanon. unfold sort_items. by rewrite <- sort_perm.
Qed.

Lemma sort_items_canonical_witness :
  sort_items [(lit "B", 1); (lit "A", 3); (lit "A", 2)]
  = sort_items [(lit "A", 2); (lit "B", 1); (lit "A", 3)].
Proof.
  apply (sort_items_canonical [(lit "B", 1); (lit "A", 3); (lit "A", 2)]
           [(lit "A", 2); (lit "B", 1); (lit "A", 3)]).
  symmetry.
  apply (Permutation_cons_app (l := [(lit "B", 1); (lit "A", 3)])
           [(lit "B", 1); (lit "A", 3)] [] (lit "A", 2)).
  reflexivity.
Defined.

(** ** What the path query lets through *)

(** X18: every row of the path query comes from an attachment whose parent
    is the row's identifier, whose path is the row's path, and whose content
    type is not NULL and contains "pdf" or "djvu" in any mix of upper and
    lower case; both the attachment and the parent are items of the
    library. *)
Theorem query_paths_filter (db : sqlite.database) (id : Z) (path : option str) :
  (id, path) ∈ sqlite._QUERY_PATHS db ->
  exists (ia : sqlite.itemAttachments_row) (content_type : str),
    ia ∈ sqlite.itemAttachments db
    /\ sqlite.ia_parentItemID ia = Some id
    /\ sqlite.ia_path ia = path
    /\ sqlite.ia_contentType ia = Some content_type
    /\ (contains (sqlite.lower <$> content_type) (lit "pdf") = true
        \/ contains (sqlite.lower <$> content_type) (lit "djvu") = true)
    /\ id ∈ sqlite.items_itemID <$> sqlite.items db
    /\ sqlite.ia_itemID ia ∈ sqlite.items_itemID <$> sqlite.items db.
Proof.
  unfold sqlite._QUERY_PATHS. intros H.
  apply list_elem_of_fmap in H as (j & [= -> ->] & Hj).
  apply list_elem_of_filter in Hj as [Hw Hj].
  unfold sqlite.from_attachments in Hj.
  apply list_elem_of_bind in Hj as (ia & Hj & Hia).
  apply list_elem_of_bind in Hj as (ai & Hj & Hai).
  apply list_elem_of_bind in Hj as (aid & Hj & Haid).
  apply list_elem_of_bind in Hj as (aidv & Hj & Haidv).
  apply list_elem_of_bind in Hj as (pi & Hj & Hpi).
  apply list_elem_of_bind in Hj as (pid & Hj & Hpid).
  apply list_elem_of_bind in Hj as (pidv & Hj & Hpidv).
  apply list_elem_of_singleton in Hj as ->. simpl in *.
  apply list_elem_of_filter in Hai as [Hai1 Hai2].
  apply list_elem_of_filter in Hpi as [Hpi1 Hpi2].
  unfold sqlite.where_title_pdf in Hw. simpl in Hw.
  apply andb_prop in Hw as [_ Hlike].
  destruct (sqlite.ia_contentType ia) as [content_type|] eqn:Hct; [|done].
  exists ia, content_type. simpl in Hlike.
  split; [done|]. split; [done|]. split; [done|]. split; [done|].
  split; [by apply orb_prop in Hlike|]. split.
  - apply list_elem_of_fmap. by exists pi.
  - apply list_elem_of_fmap. exists ai. by split.
Qed.

Lemma query_paths_filter_witness :
  exists (ia : sqlite.itemAttachments_row) (content_type : str),
    ia ∈ sqlite.itemAttachments sample.db_with_path
    /\ sqlite.ia_parentItemID ia = Some 1
    /\ sqlite.ia_path ia = Some (lit "storage:paper.pdf")
    /\ sqlite.ia_contentType ia = Some content_type
    /\ (contains (sqlite.lower <$> content_type) (lit "pdf") = true
        \/ contains (sqlite.lower <$> content_type) (lit "djvu") = true)
    /\ 1 ∈ sqlite.items_itemID <$> sqlite.items sample.db_with_path
    /\ sqlite.ia_itemID ia
       ∈ sqlite.items_itemID <$> sqlite.items sample.db_with_path.
Proof.
  apply (query_paths_filter sample.db_with_path 1
           (Some (lit "storage:paper.pdf"))).
  vm_compute. left.
Defined.

(** * Path texts *)

(** ** Splitting and joining *)

Lemma split_no_sep (sep : N) (c : str) : sep ∉ c -> split sep c = [c].
Proof.
  induction c as [|x c IH]; intros Hc; [done|].
  apply not_elem_of_cons in Hc as [Hx Hc]. simpl.
  destruct (N.eqb_spec x sep) as [->|_]; [done|]. by rewrite IH.
Qed.

Lemma split_app_sep (sep : N) (c s : str) :
  sep ∉ c -> split sep (c ++ sep :: s) = c :: split sep s.
Proof.
  induction c as [|x c IH]; intros Hc; simpl.
  - by rewrite N.eqb_refl.
  - apply not_elem_of_cons in Hc as [Hx Hc].
    destruct (N.eqb_spec x sep) as [->|_]; [done|]. by rewrite IH.
Qed.

Lemma split_join (sep : N) (comps : list str) :
  comps <> [] -> Forall (fun c => sep ∉ c) comps ->
  split sep (join [sep] comps) = comps.
Proof.
  induction comps as [|c [|c2 rest] IH]; intros Hne Hall; [done| |].
  - apply Forall_cons in Hall as [Hc _]. by apply split_no_sep.
  - apply Forall_cons in Hall as [Hc Hall].
    change (join [sep] (c :: c2 :: rest))
      with (c ++ sep :: join [sep] (c2 :: rest)).
    rewrite split_app_sep by done. f_equal. by apply IH.
Qed.

Lemma join_app (sep : str) (a b : list str) :
  a <> [] -> b <> [] -> join sep (a ++ b) = join sep a ++ sep ++ join sep b.
Proof.
  induction a as [|x [|y a] IH]; intros Ha Hb; [done| |].
  - destruct b as [|z b]; [done|]. reflexivity.
  - change (join sep ((x :: y :: a) ++ b))
      with (x ++ sep ++ join sep ((y :: a) ++ b)).
    rewrite IH by done.
    change (join sep (x :: y :: a)) with (x ++ sep ++ join sep (y :: a)).
    by rewrite <- !app_assoc.
Qed.

Lemma join_head (comps : list str) :
  Forall plain comps -> head (rel_text comps) <> Some pathlib.sep.
Proof.
  destruct comps as [|c comps]; [done|]. intros Hall.
  apply Forall_cons in Hall as [(Hne & _ & Hsep) _].
  destruct c as [|x c]; [done|].
  apply not_elem_of_cons in Hsep as [Hx _].
  unfold rel_text. destruct comps; simpl; by intros [= ->].
Qed.

Lemma join_nonempty (comps : list str) :
  Forall plain comps -> comps <> [] -> rel_text comps <> [].
Proof.
  destruct comps as [|c comps]; [done|]. intros Hall _.
  apply Forall_cons in Hall as [(Hne & _) _].
  destruct c as [|x c]; [done|]. unfold rel_text. by destruct comps.
Qed.

(** ** What pathlib makes of a normalised text *)

Lemma keep_plain (c : str) : plain c -> pathlib.keep c = true.
Proof.
  intros (H1 & H2 & _). unfold pathlib.keep, str_eqb.
  by rewrite !bool_decide_eq_false_2.
Qed.

Lemma filter_keep_plain (comps : list str) :
  Forall plain comps ->
  filter (fun x => pathlib.keep x = true) comps = comps.
Proof.
  induction 1 as [|c comps Hc Hall IH]; [done|].
  rewrite filter_cons_True by (by apply keep_plain). by rewrite IH.
Qed.

Lemma components_join (comps : list str) :
  Forall plain comps -> pathlib.components (rel_text comps) = comps.
Proof.
  intros Hall. unfold pathlib.components, rel_text.
  destruct comps as [|c [|c2 rest]].
  - reflexivity.
  - apply Forall_cons in Hall as [Hc _]. simpl.
    rewrite bool_decide_eq_false_2 by apply Hc. by rewrite keep_plain.
  - rewrite bool_decide_eq_true_2.
    + rewrite split_join; [by apply filter_keep_plain | done |].
      eapply Forall_impl; [exact Hall|]. by intros x (_ & _ & ?).
    + change (join [pathlib.sep] (c :: c2 :: rest))
        with (c ++ pathlib.sep :: join [pathlib.sep] (c2 :: rest)).
      apply elem_of_app. right. by left.
Qed.

Lemma of_str_relative (s : str) :
  head s <> Some pathlib.sep ->
  pathlib.of_str s = pathlib.mkPath [] (pathlib.components s).
Proof.
  intros Hhead. unfold pathlib.of_str, pathlib.parse_parts. simpl.
  destruct s as [|c s]; simpl; [reflexivity|].
  destruct (N.eqb_spec c pathlib.sep) as [->|_]; [done|]. reflexivity.
Qed.

Lemma lstrip_no_sep (c : N) (s : str) : head s <> Some c -> lstrip c s = s.
Proof.
  destruct s as [|d s]; [done|]. simpl. intros H.
  destruct (N.eqb_spec d c) as [->|_]; [done|]. reflexivity.
Qed.

Lemma of_str_abs_text (comps : list str) :
  Forall plain comps ->
  pathlib.of_str (abs_text comps)
  = pathlib.mkPath [pathlib.sep] ([pathlib.sep] :: comps).
Proof.
  intros Hall. unfold pathlib.of_str, pathlib.parse_parts, abs_text.
  rewrite reverse_singleton. cbn [pathlib.parse_rev app].
  change (str_eqb (pathlib.sep :: join [pathlib.sep] comps) []) with false.
  cbn match. unfold pathlib.splitroot. rewrite N.eqb_refl.
  cbn [lstrip]. rewrite N.eqb_refl. fold (rel_text comps).
  rewrite (lstrip_no_sep _ _ (join_head comps Hall)). unfold rel_text.
  assert ((len (pathlib.sep :: join [pathlib.sep] comps)
             - len (join [pathlib.sep] comps) =? 2) = false) as ->.
  { apply Z.eqb_neq. unfold len. simpl length. lia. }
  change (str_eqb [pathlib.sep] []) with false. cbn match.
  f_equal. f_equal. by apply components_join.
Qed.

Lemma to_str_absolute (comps : list str) :
  pathlib.to_str (pathlib.mkPath [pathlib.sep] ([pathlib.sep] :: comps))
  = abs_text comps.
Proof. reflexivity. Qed.

Lemma to_str_relative (comps : list str) :
  Forall plain comps -> comps <> [] ->
  pathlib.to_str (pathlib.mkPath [] comps) = rel_text comps.
Proof.
  intros Hall Hne. unfold pathlib.to_str. simpl.
  change (str_eqb [] []) with true. cbn match. fold (rel_text comps).
  unfold str_eqb. by rewrite bool_decide_eq_false_2 by by apply join_nonempty.
Qed.

(** The text of a join of normalised texts. *)
Lemma truediv_text (bcomps comps : list str) :
  Forall plain bcomps -> bcomps <> [] -> Forall plain comps -> comps <> [] ->
  pathlib.to_str (pathlib.of_str (abs_text bcomps) // rel_text comps)
  = abs_text bcomps ++ [pathlib.sep] ++ rel_text comps.
Proof.
  intros Hb Hbne Hc Hcne.
  rewrite of_str_abs_text by done.
  rewrite truediv_relative by (by apply join_head).
  rewrite components_join by done. simpl.
  change ((pathlib.sep :: nil) :: bcomps ++ comps)
    with ([pathlib.sep] :: (bcomps ++ comps)).
  rewrite to_str_absolute. unfold abs_text, rel_text.
  rewrite join_app by done. reflexivity.
Qed.

Lemma storage_text (dcomps comps : list str) (key : str) :
  Forall plain dcomps -> dcomps <> [] -> plain key ->
  Forall plain comps -> comps <> [] ->
  pathlib.to_str
    (pathlib.of_str (abs_text dcomps) // lit "storage" // key // rel_text comps)
  = abs_text dcomps ++ lit "/storage/" ++ key ++ [pathlib.sep]
      ++ rel_text comps.
Proof.
  intros Hd Hdne Hkey Hc Hcne.
  rewrite of_str_abs_text by done.
  rewrite (truediv_relative _ (lit "storage")) by discriminate.
  change (pathlib.components (lit "storage")) with [lit "storage"].
  assert (Forall plain [key]) as Hkeys by (by constructor).
  rewrite (truediv_relative _ key) by apply (join_head [key] Hkeys).
  change (pathlib.components key) with (pathlib.components (rel_text [key])).
  rewrite (components_join [key] Hkeys).
  rewrite truediv_relative by (by apply join_head).
  rewrite components_join by done. cbn [pathlib.root pathlib.parts].
  replace (((([pathlib.sep] :: dcomps) ++ [lit "storage"]) ++ [key]) ++ comps)
    with ([pathlib.sep] :: (dcomps ++ lit "storage" :: key :: comps))
    by (simpl; by rewrite <- !app_assoc).
  rewrite to_str_absolute. unfold abs_text, rel_text.
  rewrite join_app by done.
  destruct comps as [|c comps]; [done|]. reflexivity.
Qed.

(** C2, as the code has it. For every raw expression the resolution is a
    function of the expression, the two directories and the key of the
    row's identifier: after [attachments:] the remainder is joined to the
    base directory with pathlib's [/], after [storage:] the data directory,
    "storage", the key and the remainder are joined, and any other
    expression becomes [Path] of itself. Where the directories are
    normalised absolute paths, the key is one plain component and the
    remainder a normalised relative path, the resolved path reads
    <base dir>/<remainder> and <data dir>/storage/<key>/<remainder>; and a
    normalised absolute or relative path resolves to a path that reads as
    the expression itself. *)
Theorem resolve_path_joins_and_text
    (zotero_base_dir zotero_path : Path) (keys : gmap Z str) (path_id : Z) :
  (forall rest : str,
      resolve_path zotero_base_dir zotero_path keys path_id
        (lit "attachments:" ++ rest)
      = Ok (zotero_base_dir // rest))
  /\ (forall (rest key : str),
        keys !! path_id = Some key ->
        resolve_path zotero_base_dir zotero_path keys path_id
          (lit "storage:" ++ rest)
        = Ok (zotero_path // lit "storage" // key // rest))
  /\ (forall raw : str,
        startswith raw (lit "attachments:") = false ->
        startswith raw (lit "storage:") = false ->
        resolve_path zotero_base_dir zotero_path keys path_id raw
        = Ok (pathlib.of_str raw))
  /\ (forall (keys' : gmap Z str) (raw : str),
        keys' !! path_id = keys !! path_id ->
        resolve_path zotero_base_dir zotero_path keys' path_id raw
        = resolve_path zotero_base_dir zotero_path keys path_id raw)
  /\ (forall bcomps comps : list str,
        Forall plain bcomps -> bcomps <> [] ->
        Forall plain comps -> comps <> [] ->
        pathlib.to_str (pathlib.of_str (abs_text bcomps) // rel_text comps)
        = abs_text bcomps ++ lit "/" ++ rel_text comps)
  /\ (forall (dcomps comps : list str) (key : str),
        Forall plain dcomps -> dcomps <> [] -> plain key ->
        Forall plain comps -> comps <> [] ->
        pathlib.to_str
          (pathlib.of_str (abs_text dcomps) // lit "storage" // key
             // rel_text comps)
        = abs_text dcomps ++ lit "/storage/" ++ key ++ lit "/"
            ++ rel_text comps)
  /\ (forall comps : list str,
        Forall plain comps ->
        pathlib.to_str (pathlib.of_str (abs_text comps)) = abs_text comps
        /\ (comps <> [] ->
            pathlib.to_str (pathlib.of_str (rel_text comps)) = rel_text comps)).
Proof.
  destruct (resolve_path_cases zotero_base_dir zotero_path keys path_id)
    as (H1 & H2 & H3 & H4 & _).
  split; [done|]. split; [done|]. split; [done|]. split; [done|].
  split; [apply truediv_text|]. split; [apply storage_text|].
  intros comps Hall. split.
  - by rewrite of_str_abs_text.
  - intros Hne. rewrite of_str_relative by (by apply join_head).
    rewrite components_join by done. by apply to_str_relative.
Qed.

Lemma plain_ascii_witness :
  plain (lit "base") /\ plain (lit "zotero") /\ plain (lit "ABCD1234")
  /\ plain (lit "foo") /\ plain (lit "bar.pdf") /\ plain (lit "already")
  /\ plain (lit "absolute.pdf").
Proof.
  repeat split; try discriminate;
    (intros H; apply list_elem_of_In in H; simpl in H; intuition discriminate).
Qed.

Ltac plain_list :=
  repeat (apply Forall_cons_2; [assumption|]); apply Forall_nil_2.

Lemma resolve_path_joins_and_text_witness :
  pathlib.to_str (pathlib.of_str (lit "/base") // lit "foo/bar.pdf")
  = lit "/base/foo/bar.pdf"
  /\ pathlib.to_str
       (pathlib.of_str (lit "/zotero") // lit "storage" // lit "ABCD1234"
          // lit "bar.pdf")
     = lit "/zotero/storage/ABCD1234/bar.pdf"
  /\ pathlib.to_str (pathlib.of_str (lit "/already/absolute.pdf"))
     = lit "/already/absolute.pdf"
  /\ resolve_path sample.zotero_base_dir sample.zotero_path
       {[7 := lit "ABCD1234"]} 7 (lit "storage:bar.pdf")
     = Ok (sample.zotero_path // lit "storage" // lit "ABCD1234"
             // lit "bar.pdf").
Proof.
  destruct plain_ascii_witness as (Hbase & Hzot & Hkey & Hfoo & Hbar & Hal & Hab).
  destruct (resolve_path_joins_and_text sample.zotero_base_dir
              sample.zotero_path {[7 := lit "ABCD1234"]} 7)
    as (_ & Hstorage & _ & _ & Hjoin & Hstore & Hself).
  assert (forall c : str, c :: [] <> []) as Hne1 by done.
  assert (forall (c d : str), c :: d :: [] <> []) as Hne2 by done.
  split; [|split; [|split]].
  - apply (Hjoin [lit "base"] [lit "foo"; lit "bar.pdf"]);
      [plain_list | apply Hne1 | plain_list | apply Hne2].
  - apply (Hstore [lit "zotero"] [lit "bar.pdf"] (lit "ABCD1234"));
      [plain_list | apply Hne1 | assumption | plain_list | apply Hne1].
  - apply (proj1 (Hself [lit "already"; lit "absolute.pdf"]
                    ltac:(plain_list))).
  - exact (Hstorage (lit "bar.pdf") (lit "ABCD1234") eq_refl).
Defined.

(** C2 as stated fails. An expression with a "." component and a trailing
    slash does not resolve to itself; the empty expression resolves to ".";
    and a [storage:] remainder with a leading slash resolves to the
    remainder alone, not to a path under the data directory. *)
Lemma resolve_path_not_verbatim_cex :
  (exists p,
      resolve_path sample.zotero_base_dir sample.zotero_path
        {[7 := lit "ABCD1234"]} 7 (lit "/a/./b.pdf/") = Ok p
      /\ pathlib.to_str p = lit "/a/b.pdf"
      /\ pathlib.to_str p <> lit "/a/./b.pdf/")
  /\ (exists p,
        resolve_path sample.zotero_base_dir sample.zotero_path
          {[7 := lit "ABCD1234"]} 7 [] = Ok p
        /\ pathlib.to_str p = lit "."
        /\ pathlib.to_str p <> [])
  /\ (exists p,
        resolve_path sample.zotero_base_dir sample.zotero_path
          {[7 := lit "ABCD1234"]} 7 (lit "storage:/etc/passwd") = Ok p
        /\ pathlib.to_str sample.zotero_path = lit "/zotero"
        /\ pathlib.to_str p = lit "/etc/passwd"
        /\ pathlib.to_str p <> lit "/zotero/storage/ABCD1234//etc/passwd"
        /\ pathlib.to_str p <> lit "/zotero/storage/ABCD1234/etc/passwd").
Proof.
  split; [|split]; eexists;
    (split; [vm_compute; reflexivity|]); repeat split;
    try (vm_compute; reflexivity); vm_compute; discriminate.
Qed.
